(** * MiniGit object model: fingerprints, commit records and their text codec

    A shallow embedding of [Hashing.cpp], [Commit.cpp] / [Commit.h] and of
    [FileUtils::readFromFile], followed by the properties of the design
    document that concern them.

    Conventions of the embedding:
    - [std::string] is [string]; a [char] is an [ascii], read as an
      [unsigned char] through [N_of_ascii];
    - [unsigned int] is a [Z] in [[0, 2^32)], the wrap-around of the
      multiplication being written out;
    - [std::unordered_map<std::string, std::string>] is the sequence of its
      entries in iteration order, which the standard leaves unspecified: the
      keys of the sequence are pairwise distinct and nothing else is known
      about the order;
    - a [throw] is the [Throw] result of a function returning [result];
    - the clock read by [generateTimestamp] is an explicit argument of the
      constructor. *)

From Stdlib Require Import ZArith List Bool Lia Ascii String.
From Stdlib Require Import Sorting.Permutation Sorting.Sorted.
Import ListNotations.
Local Open Scope string_scope.

(** ** The operations of [std::string] and of the streams that the code uses *)

Module StdString.

Definition newline : ascii := "010"%char.
Definition space : ascii := " "%char.

(** The string made of one line feed, written ["\n"] in the source. *)
Definition NL : string := String newline "".

(** [static_cast<unsigned char>(c)] *)
Definition uchar (c : ascii) : Z := Z.of_N (N_of_ascii c).

(** [line.rfind(p, 0) == 0]: [p] occurs in [line] at position 0. *)
Fixpoint starts_with (p line : string) : bool :=
  match p with
  | "" => true
  | String a p' =>
      match line with
      | "" => false
      | String b line' => Ascii.eqb a b && starts_with p' line'
      end
  end.

(** [s.substr(pos)], for [pos <= s.size()] (every call of the source comes
    after a test that makes it so, see [starts_with_length] and
    [find_lt_length]). *)
Fixpoint substr_from (pos : nat) (s : string) : string :=
  match pos with
  | O => s
  | S n => match s with
           | "" => ""
           | String _ s' => substr_from n s'
           end
  end.

(** [s.substr(0, n)] *)
Fixpoint substr_to (n : nat) (s : string) : string :=
  match n with
  | O => ""
  | S n' => match s with
            | "" => ""
            | String c s' => String c (substr_to n' s')
            end
  end.

(** [s.find(c)]; [None] stands for [std::string::npos]. *)
Fixpoint find (c : ascii) (s : string) : option nat :=
  match s with
  | "" => None
  | String b s' =>
      if Ascii.eqb b c then Some O
      else match find c s' with
           | Some i => Some (S i)
           | None => None
           end
  end.

(** [c] occurs in [s]. *)
Fixpoint contains (c : ascii) (s : string) : bool :=
  match s with
  | "" => false
  | String b s' => Ascii.eqb b c || contains c s'
  end.

(** One call of [std::getline(ss, line)] on a stream that still holds the
    characters [s]: the line read (the line feed is consumed and dropped)
    and what is left in the stream. *)
Fixpoint getline (s : string) : string * string :=
  match s with
  | "" => ("", "")
  | String c s' =>
      if Ascii.eqb c newline then ("", s')
      else let (line, rest) := getline s' in (String c line, rest)
  end.

(** The lines that [while (std::getline(ss, line))] goes through: the call
    fails, and the loop ends, once the stream is exhausted, so that a final
    line feed does not open an empty last line. *)
Fixpoint getlines (s : string) : list string :=
  match s with
  | "" => []
  | String c s' =>
      if Ascii.eqb c newline then "" :: getlines s'
      else match getlines s' with
           | [] => [String c ""]
           | line :: more => String c line :: more
           end
  end.

(** [operator<<] of an [unsigned] under [std::hex]: the digits of [n] in
    base 16, lower case, without leading zeros, at least one digit. *)
Definition hex_digit (d : Z) : ascii :=
  if (d <? 10)%Z then ascii_of_N (Z.to_N (48 + d))
  else ascii_of_N (Z.to_N (87 + d)).

Fixpoint to_hex_aux (fuel : nat) (n : Z) (acc : string) : string :=
  match fuel with
  | O => acc
  | S fuel' =>
      let acc' := String (hex_digit (n mod 16)) acc in
      if (n / 16 =? 0)%Z then acc' else to_hex_aux fuel' (n / 16) acc'
  end.

Definition to_hex (n : Z) : string :=
  to_hex_aux (S (Z.to_nat (Z.log2 n))) n "".

(** [std::setw(w)] with [std::setfill(fill)] and the default adjustment:
    the field is padded on the left up to [w] characters, never cut. *)
Fixpoint fill_string (n : nat) (fill : ascii) : string :=
  match n with
  | O => ""
  | S n' => String fill (fill_string n' fill)
  end.

Definition setw_setfill (w : nat) (fill : ascii) (field : string) : string :=
  fill_string (w - String.length field) fill ++ field.

End StdString.

(** ** Hashing.cpp *)

Module Hashing.

Import StdString.

Definition FNV_PRIME : Z := 16777619.
Definition FNV_OFFSET_BASIS : Z := 2166136261.

(** The range of [unsigned int]. *)
Definition UINT_RANGE : Z := 2 ^ 32.

(** The body of the loop: [hash ^= (unsigned char) c; hash *= FNV_PRIME]. *)
Definition fnv_step (hash : Z) (c : ascii) : Z :=
  let hash := Z.lxor hash (uchar c) in
  (hash * FNV_PRIME) mod UINT_RANGE.

(** [for (char c : content)], from the current value of [hash]. *)
Fixpoint fnv_loop (content : string) (hash : Z) : Z :=
  match content with
  | "" => hash
  | String c rest => fnv_loop rest (fnv_step hash c)
  end.

Definition calculateHash (content : string) : string :=
  let hash := fnv_loop content FNV_OFFSET_BASIS in
  setw_setfill 8 "0"%char (to_hex hash).

End Hashing.

(** ** Commit.h, Commit.cpp *)

Module Commit.

Import StdString.

Definition entry : Type := string * string.

(** The entries of an [unordered_map], in iteration order. *)
Definition unordered_map : Type := list entry.

Definition keys (m : unordered_map) : list string := map fst m.

(** [m[k] = v]: the value of an entry already there is replaced where it
    stands; a new entry is added. Where the table puts a new entry in its
    iteration order is unspecified: the model adds it last, and no
    statement below depends on that choice. *)
Fixpoint assign (k v : string) (m : unordered_map) : unordered_map :=
  match m with
  | [] => [(k, v)]
  | (k', v') :: m' =>
      if String.eqb k' k then (k', v) :: m'
      else (k', v') :: assign k v m'
  end.

(** The table obtained from an empty one by [m[k] = v] for each entry of
    [es], first to last. *)
Definition inserted (es : list entry) : unordered_map :=
  fold_left (fun m e => assign (fst e) (snd e) m) es [].

Fixpoint lookup (k : string) (m : unordered_map) : option string :=
  match m with
  | [] => None
  | (k', v) :: m' => if String.eqb k' k then Some v else lookup k m'
  end.

Record CommitNode : Type := mkCommitNode {
  hash : string;
  parentHashes : list string;
  message : string;
  timestamp : string;
  fileBlobs : unordered_map
}.

Definition getHash (c : CommitNode) : string := hash c.
Definition getParentHashes (c : CommitNode) : list string := parentHashes c.
Definition getMessage (c : CommitNode) : string := message c.
Definition getTimestamp (c : CommitNode) : string := timestamp c.
Definition getFileBlobs (c : CommitNode) : unordered_map := fileBlobs c.

(** The comparator of both calls of [std::sort]: [a.first < b.first], the
    lexicographic order of [std::string] on unsigned characters. *)
Definition comp (a b : entry) : bool := String.ltb (fst a) (fst b).

(** [std::sort(v.begin(), v.end(), comp)]. The algorithm is left to the
    library and is not stable; on entries whose keys are pairwise distinct,
    which is all the code sorts, [comp] is a strict total order and the
    result is the only sorted arrangement ([std_sort_unique]). *)
Fixpoint sort_insert (x : entry) (v : list entry) : list entry :=
  match v with
  | [] => [x]
  | y :: v' => if comp x y then x :: y :: v' else y :: sort_insert x v'
  end.

Fixpoint std_sort (v : list entry) : list entry :=
  match v with
  | [] => []
  | x :: v' => sort_insert x (std_sort v')
  end.

(** [for (parent : parentHashes) ss << "parent:" << parent << "\n"] *)
Definition emit_parents (ss : string) (parents : list string) : string :=
  fold_left (fun ss parent => ss ++ "parent:" ++ parent ++ NL) parents ss.

(** [for (entry : sorted) contentToHash << "  " << first << " " << second << "\n"] *)
Definition emit_tree (ss : string) (sorted : list entry) : string :=
  fold_left (fun ss e => ss ++ "  " ++ fst e ++ " " ++ snd e ++ NL) sorted ss.

(** [for (entry : sorted) ss << "file:" << first << " " << second << "\n"] *)
Definition emit_files (ss : string) (sorted : list entry) : string :=
  fold_left (fun ss e => ss ++ "file:" ++ fst e ++ " " ++ snd e ++ NL) sorted ss.

(** [contentToHash.str()] at the end of [calculateHash]: the text that is
    fingerprinted. *)
Definition contentToHash (c : CommitNode) : string :=
  let ss := "commit" ++ NL in
  let ss := ss ++ "message:" ++ message c ++ NL in
  let ss := ss ++ "timestamp:" ++ timestamp c ++ NL in
  let ss := emit_parents ss (parentHashes c) in
  let sortedFileBlobs := std_sort (fileBlobs c) in
  let ss := ss ++ "tree:" ++ NL in
  emit_tree ss sortedFileBlobs.

Definition calculateHash (c : CommitNode) : string :=
  Hashing.calculateHash (contentToHash c).

(** The constructor; [now] is what [generateTimestamp()] returns. The
    members are set in the order of the source: [hash] is computed last,
    from the other four. *)
Definition new_CommitNode (message : string) (parentHashes : list string)
    (fileBlobs : unordered_map) (now : string) : CommitNode :=
  let this := mkCommitNode "" parentHashes message now fileBlobs in
  mkCommitNode (calculateHash this) parentHashes message now fileBlobs.

Definition serialize (c : CommitNode) : string :=
  let ss := "type:commit" ++ NL in
  let ss := ss ++ "hash:" ++ hash c ++ NL in
  let ss := ss ++ "message:" ++ message c ++ NL in
  let ss := ss ++ "timestamp:" ++ timestamp c ++ NL in
  let ss := emit_parents ss (parentHashes c) in
  let sortedFileBlobs := std_sort (fileBlobs c) in
  emit_files ss sortedFileBlobs.

(** A thrown [std::runtime_error], as a handler can read it: through
    [what()], which is a C string. *)
Inductive exn : Type := runtime_error (what : string).

(** A [std::string] read as a C string: the characters before its first
    NUL. *)
Fixpoint c_str (s : string) : string :=
  match s with
  | "" => ""
  | String c s' => if Ascii.eqb c Ascii.zero then "" else String c (c_str s')
  end.

(** [throw std::runtime_error(what_arg)]: the argument is a [std::string],
    which a line of the input can fill with any character, NUL included;
    [what()] shows it up to the first NUL. *)
Definition std_runtime_error (what_arg : string) : exn :=
  runtime_error (c_str what_arg).

Inductive result (A : Type) : Type :=
| Ok (a : A)
| Throw (e : exn).
Arguments Ok {A} a.
Arguments Throw {A} e.

Definition bad_type (got : string) : exn :=
  std_runtime_error ("Deserialization error: Expected type:commit, got " ++ got).

Definition bad_file_entry : exn :=
  std_runtime_error "Deserialization error: Invalid file entry format in commit.".

(** The locals of [deserialize] that the loop updates. *)
Record locals : Type := mkLocals {
  commit : CommitNode;
  deserializedParentHashes : list string;
  deserializedFileBlobs : unordered_map
}.

Definition set_hash (h : string) (c : CommitNode) : CommitNode :=
  mkCommitNode h (parentHashes c) (message c) (timestamp c) (fileBlobs c).
Definition set_message (m : string) (c : CommitNode) : CommitNode :=
  mkCommitNode (hash c) (parentHashes c) m (timestamp c) (fileBlobs c).
Definition set_timestamp (t : string) (c : CommitNode) : CommitNode :=
  mkCommitNode (hash c) (parentHashes c) (message c) t (fileBlobs c).

(** The body of the [while] loop, for one line. *)
Definition loop_body (line : string) (st : locals) : result locals :=
  if starts_with "type:" line then
    if String.eqb (substr_from 5 line) "commit" then Ok st
    else Throw (bad_type (substr_from 5 line))
  else if starts_with "hash:" line then
    Ok (mkLocals (set_hash (substr_from 5 line) (commit st))
                 (deserializedParentHashes st) (deserializedFileBlobs st))
  else if starts_with "message:" line then
    Ok (mkLocals (set_message (substr_from 8 line) (commit st))
                 (deserializedParentHashes st) (deserializedFileBlobs st))
  else if starts_with "timestamp:" line then
    Ok (mkLocals (set_timestamp (substr_from 10 line) (commit st))
                 (deserializedParentHashes st) (deserializedFileBlobs st))
  else if starts_with "parent:" line then
    Ok (mkLocals (commit st)
                 (deserializedParentHashes st ++ [substr_from 7 line])%list
                 (deserializedFileBlobs st))
  else if starts_with "file:" line then
    let fileEntry := substr_from 5 line in
    match find space fileEntry with
    | None => Throw bad_file_entry
    | Some spacePos =>
        let filename := substr_to spacePos fileEntry in
        let blobHash := substr_from (spacePos + 1) fileEntry in
        Ok (mkLocals (commit st) (deserializedParentHashes st)
                     (assign filename blobHash (deserializedFileBlobs st)))
    end
  else Ok st.

(** [while (std::getline(ss, line)) { ... }] over the lines still to read. *)
Fixpoint while_getline (lines : list string) (st : locals) : result locals :=
  match lines with
  | [] => Ok st
  | line :: more =>
      match loop_body line st with
      | Ok st' => while_getline more st'
      | Throw e => Throw e
      end
  end.

(** [CommitNode commit;] and the two empty locals. *)
Definition initial_locals : locals :=
  mkLocals (mkCommitNode "" [] "" "" []) [] [].

Definition deserialize (content : string) : result CommitNode :=
  match while_getline (getlines content) initial_locals with
  | Throw e => Throw e
  | Ok st =>
      Ok (mkCommitNode (hash (commit st)) (deserializedParentHashes st)
                       (message (commit st)) (timestamp (commit st))
                       (deserializedFileBlobs st))
  end.

End Commit.

(** ** FileUtils.cpp: [readFromFile] *)

Module FileUtils.

(** What the file system and the stream library answer for one path. *)
Record file : Type := mkFile {
  exists_ : bool;            (* fs::exists *)
  is_regular_file : bool;    (* fs::is_regular_file *)
  is_open : bool;            (* inFile.is_open() after construction *)
  rdbuf : string;            (* the bytes [buffer << inFile.rdbuf()] obtains *)
  file_size : nat            (* fs::file_size *)
}.

(** The outcome of a call: the [bool] returned, the value left in the
    reference parameter [content], and the lines sent to [std::cerr]. *)
Record outcome : Type := mkOutcome {
  returned : bool;
  content : string;
  cerr : list string
}.

Definition quoted (filename : string) : string := "'" ++ filename ++ "'".

Definition readFromFile (f : file) (filename : string) : outcome :=
  if negb (exists_ f) then
    mkOutcome false ""
      ["ERROR: readFromFile: File does not exist: " ++ quoted filename]
  else if negb (is_regular_file f) then
    mkOutcome false ""
      ["ERROR: readFromFile: Path is not a regular file: " ++ quoted filename]
  else if negb (is_open f) then
    mkOutcome false ""
      ["ERROR: readFromFile: Failed to open file for reading: " ++ quoted filename]
  else
    let content := rdbuf f in
    if (String.length content =? 0)%nat && (0 <? file_size f)%nat then
      mkOutcome true content
        ["WARNING: readFromFile: File " ++ quoted filename
           ++ " was opened but read as empty despite having content."]
    else mkOutcome true content [].

End FileUtils.

(** ** The reference algorithm, in the words of the design document

    Written from the document and not from [Hashing.cpp], to be compared with
    [Hashing.calculateHash]: a 32-bit FNV-1a accumulator (offset basis
    2166136261, prime 16777619), iterated byte by byte (XOR, then multiply),
    rendered as 8 lower-case hexadecimal digits, zero-padded. *)

Module Reference.

Import StdString.
Local Open Scope Z_scope.

Definition fnv1a_32 (bytes : list Z) : Z :=
  fold_left (fun acc b => (Z.lxor acc b * 16777619) mod 2 ^ 32) bytes 2166136261.

Definition bytes_of (s : string) : list Z := map uchar (list_ascii_of_string s).

Definition lower_hex_digits : string := "0123456789abcdef".

Definition digit_char (d : Z) : ascii :=
  match String.get (Z.to_nat d) lower_hex_digits with
  | Some c => c
  | None => "0"%char
  end.

Definition hex8 (n : Z) : string :=
  string_of_list_ascii
    (map (fun i => digit_char ((n / 16 ^ i) mod 16)) [7; 6; 5; 4; 3; 2; 1; 0]).

End Reference.

(** ** Vocabulary of the statements

    None of what follows is code of the repository: these are the notions in
    which the properties are stated and proved. *)

Module Lines.

Import StdString Commit.

Definition newline_free (s : string) : bool := negb (contains newline s).
Definition space_free (s : string) : bool := negb (contains space s).

(** The text made of the given lines, each ended by a line feed. *)
Fixpoint unlines (ls : list string) : string :=
  match ls with
  | [] => ""
  | l :: ls' => l ++ NL ++ unlines ls'
  end.

(** The lines that the two encoders write, as lists ([serialize_unlines] and
    [contentToHash_unlines] relate them to the streams of the source). *)
Definition parent_line (p : string) : string := "parent:" ++ p.
Definition file_line (e : entry) : string := "file:" ++ fst e ++ " " ++ snd e.
Definition tree_line (e : entry) : string := "  " ++ fst e ++ " " ++ snd e.

Definition stored_lines (c : CommitNode) : list string :=
  ["type:commit"; "hash:" ++ hash c; "message:" ++ message c;
   "timestamp:" ++ timestamp c]
  ++ map parent_line (parentHashes c)
  ++ map file_line (std_sort (fileBlobs c)).

Definition hash_input_lines (c : CommitNode) : list string :=
  ["commit"; "message:" ++ message c; "timestamp:" ++ timestamp c]
  ++ map parent_line (parentHashes c)
  ++ ["tree:"]
  ++ map tree_line (std_sort (fileBlobs c)).

(** A [type:] line whose value is not [commit]. *)
Definition is_bad_type (line : string) : bool :=
  starts_with "type:" line && negb (String.eqb (substr_from 5 line) "commit").

(** A [file:] line with no space after the prefix. *)
Definition is_bad_file (line : string) : bool :=
  starts_with "file:" line &&
  match find space (substr_from 5 line) with Some _ => false | None => true end.

(** The path and the blob identifier that a [file:] line stands for. *)
Definition file_entry (line : string) : option entry :=
  if starts_with "file:" line then
    let fileEntry := substr_from 5 line in
    match find space fileEntry with
    | Some spacePos =>
        Some (substr_to spacePos fileEntry, substr_from (spacePos + 1) fileEntry)
    | None => None
    end
  else None.


(** The effect of one line on the table that the decoder fills. *)
Definition apply_file_line (m : unordered_map) (line : string) : unordered_map :=
  match file_entry line with
  | Some e => assign (fst e) (snd e) m
  | None => m
  end.

(** A line that makes the decoder throw. *)
Definition throws (line : string) : bool := is_bad_type line || is_bad_file line.

End Lines.

Module WF.

Import StdString Commit Lines.

(** The field-level rules of the text format: it is line-oriented and has
    no escaping, and the first space of a [file:] line ends the path. *)
Definition well_formed_entry (e : entry) : bool :=
  newline_free (fst e) && space_free (fst e) && newline_free (snd e).

Definition well_formed_fields (c : CommitNode) : bool :=
  newline_free (message c) && newline_free (timestamp c)
  && forallb newline_free (parentHashes c)
  && forallb well_formed_entry (fileBlobs c).

Definition well_formed (c : CommitNode) : bool :=
  newline_free (hash c) && well_formed_fields c.

(** The keys of a table are pairwise distinct. *)
Definition distinct_keys (m : unordered_map) : Prop := NoDup (keys m).

(** The weaker rules under which the design document states its round trip:
    no line feed in the message and in the timestamp, no space in a path. *)
Definition claimed_well_formed (c : CommitNode) : bool :=
  newline_free (message c) && newline_free (timestamp c)
  && forallb (fun e => space_free (fst e)) (fileBlobs c).

(** [a] goes before [b] for the comparator of [std::sort]. *)
Definition before (a b : entry) : Prop := comp a b = true.

End WF.

(** Hexadecimal digits at a fixed width, and their value. *)

Module Hex.

Import StdString.
Local Open Scope Z_scope.

(** The same digits at a fixed width [k], leading zeros included. *)
Fixpoint hex_fixed (k : nat) (n : Z) : string :=
  match k with
  | O => ""
  | S k' => (hex_fixed k' (n / 16) ++ String (hex_digit (n mod 16)) "")%string
  end.

(** Value of a lower-case hexadecimal digit, and of a string of them. *)
Definition hex_digit_val (c : ascii) : Z :=
  let n := uchar c in if n <? 58 then n - 48 else n - 87.

Fixpoint hex_val_from (v : Z) (s : string) : Z :=
  match s with
  | "" => v
  | String c s' => hex_val_from (16 * v + hex_digit_val c) s'
  end.

Definition hex_val (s : string) : Z := hex_val_from 0 s.

Definition is_lower_hex (c : ascii) : bool :=
  contains c "0123456789abcdef".

(** The inverse of [FNV_PRIME] modulo [2^32]. *)
Definition FNV_PRIME_INV : Z := 899433627.

End Hex.

(** ** Vocabulary of the further properties *)

Module More.
Import StdString Commit Lines.

(** [CommitNode::CommitNode()], the default constructor. *)
Definition default_CommitNode : CommitNode := mkCommitNode "" [] "" "" [].

(** A line that the loop of [deserialize] passes over: [type:commit], or a
    line with none of the six prefixes. *)
Definition ignored (line : string) : bool :=
  if starts_with "type:" line then String.eqb (substr_from 5 line) "commit"
  else negb (starts_with "hash:" line || starts_with "message:" line
             || starts_with "timestamp:" line || starts_with "parent:" line
             || starts_with "file:" line).

(** What follows the prefix in the last line that has it. *)
Fixpoint last_payload (prefix : string) (lines : list string) : option string :=
  match lines with
  | [] => None
  | l :: more =>
      match last_payload prefix more with
      | Some v => Some v
      | None => if starts_with prefix l
                then Some (substr_from (String.length prefix) l) else None
      end
  end.

Definition or_empty (o : option string) : string :=
  match o with Some v => v | None => "" end.

(** What follows the prefix in each [parent:] line, first to last. *)
Definition parent_payloads (lines : list string) : list string :=
  map (substr_from 7) (filter (starts_with "parent:") lines).

(** The entry that the decoder reads in the [file:] line written for [e]:
    the path ends at its first space, what follows goes to the blob
    identifier. *)
Definition resplit (e : entry) : entry :=
  match find space (fst e) with
  | None => e
  | Some i => (substr_to i (fst e), substr_from (i + 1) (fst e) ++ " " ++ snd e)
  end.

Definition newline_free_entry (e : entry) : bool :=
  newline_free (fst e) && newline_free (snd e).

(** No line feed in any field; spaces are allowed everywhere. *)
Definition newline_free_record (c : CommitNode) : bool :=
  newline_free (hash c) && newline_free (message c) && newline_free (timestamp c)
  && forallb newline_free (parentHashes c)
  && forallb newline_free_entry (fileBlobs c).

End More.

Module CrLf.
Import StdString.

Definition carriage_return : ascii := "013"%char.

(** The text with each line feed turned into a carriage return and a line
    feed. *)
Fixpoint crlf (s : string) : string :=
  match s with
  | "" => ""
  | String c s' =>
      if Ascii.eqb c newline then String carriage_return (String newline (crlf s'))
      else String c (crlf s')
  end.

End CrLf.

(** ** FileUtils.cpp: [ensureParentDirectoryExists] and [writeToFile] *)

Module FileWrite.

(** What the file system and the stream library answer during one call.
    [fs::exists(parentDir)] is the overload without an [error_code]: when the
    status of the path cannot be read it throws [fs::filesystem_error], which
    [None] stands for. [fs::create_directories(parentDir, ec)] does not
    throw. *)
Record env : Type := mkEnv {
  parent_empty : bool;          (* parentDir.empty() *)
  parent_exists : option bool;  (* fs::exists(parentDir) *)
  create_directories : bool;    (* fs::create_directories(parentDir, ec) *)
  parent_shown : string;        (* what [<< parentDir] prints *)
  ec_message : string;          (* ec.message() *)
  is_open : bool;               (* outFile.is_open() *)
  fail : bool                   (* outFile.fail() after the write and the flush *)
}.

(** How a call ends: it returns, or the exception of [fs::exists] leaves it,
    no function of the file having a handler. *)
Inductive completion : Type :=
| Returns (b : bool)
| Throws_filesystem_error.

Record outcome : Type := mkOutcome {
  ended : completion;
  cerr : list string
}.

Definition ensureParentDirectoryExists (e : env) : outcome :=
  if parent_empty e then mkOutcome (Returns true) []
  else
    match parent_exists e with
    | None => mkOutcome Throws_filesystem_error []
    | Some true => mkOutcome (Returns true) []
    | Some false =>
        if create_directories e then mkOutcome (Returns true) []
        else
          mkOutcome (Returns false)
            ["ERROR: ensureParentDirectoryExists: Failed to create parent directory '"
               ++ parent_shown e ++ "': " ++ ec_message e]
    end.

Definition writeToFile (e : env) (filename content : string) : outcome :=
  let ensured := ensureParentDirectoryExists e in
  match ended ensured with
  | Throws_filesystem_error => mkOutcome Throws_filesystem_error (cerr ensured)
  | Returns false =>
      mkOutcome (Returns false)
        (app (cerr ensured)
             ["ERROR: writeToFile: Failed to ensure parent directory exists for "
                ++ filename])
  | Returns true =>
      if negb (is_open e) then
        mkOutcome (Returns false)
          ["ERROR: writeToFile: Failed to open file for writing: '"
             ++ filename ++ "'"]
      else if fail e then
        mkOutcome (Returns false)
          ["ERROR: writeToFile: Failed to write content to file: '"
             ++ filename ++ "'"]
      else mkOutcome (Returns true) []
  end.

End FileWrite.

(** * Properties *)

(** ** Strings *)

Module StringFacts.

Import StdString Lines.

Lemma append_assoc (a b c : string) : (a ++ b) ++ c = a ++ (b ++ c).
Proof. induction a as [|x a IH]; simpl; [reflexivity | now rewrite IH]. Qed.

Lemma append_nil_r (a : string) : a ++ "" = a.
Proof. induction a as [|x a IH]; simpl; [reflexivity | now rewrite IH]. Qed.

Lemma length_append (a b : string) :
  String.length (a ++ b) = String.length a + String.length b.
Proof. induction a as [|x a IH]; simpl; [reflexivity | now rewrite IH]. Qed.

Lemma append_inv_tail (a b c : string) : a ++ c = b ++ c -> a = b.
Proof.
  revert b. induction a as [|x a IH]; intros [|y b] H; simpl in H.
  - reflexivity.
  - apply (f_equal String.length) in H. simpl in H.
    rewrite length_append in H. lia.
  - apply (f_equal String.length) in H. simpl in H.
    rewrite length_append in H. lia.
  - injection H as -> H. f_equal. now apply IH.
Qed.

Lemma append_inv_head (a b c : string) : a ++ b = a ++ c -> b = c.
Proof. induction a as [|x a IH]; simpl; intros H; [assumption|]. injection H as H. auto. Qed.

Lemma length_fill_string n c : String.length (fill_string n c) = n.
Proof. induction n; simpl; congruence. Qed.

Lemma contains_app c s t : contains c (s ++ t) = contains c s || contains c t.
Proof.
  induction s as [|x s IH]; simpl; [reflexivity|]. now rewrite IH, orb_assoc.
Qed.

Lemma starts_with_app p s : starts_with p (p ++ s) = true.
Proof.
  induction p as [|a p IH]; simpl; [reflexivity|].
  now rewrite Ascii.eqb_refl, IH.
Qed.

Lemma starts_with_length p : forall s,
  starts_with p s = true -> String.length p <= String.length s.
Proof.
  induction p as [|a p IH]; intros [|b s] H; simpl in *; try lia; try discriminate.
  apply andb_true_iff in H as [_ H]. apply IH in H. lia.
Qed.

Lemma starts_with_split p : forall s,
  starts_with p s = true -> s = p ++ substr_from (String.length p) s.
Proof.
  induction p as [|a p IH]; intros [|b s] H; simpl in *; try reflexivity;
    try discriminate.
  apply andb_true_iff in H as [Hab H]. apply Ascii.eqb_eq in Hab. subst b.
  f_equal. now apply IH.
Qed.

Lemma substr_from_app p s : substr_from (String.length p) (p ++ s) = s.
Proof. induction p as [|a p IH]; simpl; [now destruct s | assumption]. Qed.

Lemma substr_to_app p s : substr_to (String.length p) (p ++ s) = p.
Proof. induction p as [|a p IH]; simpl; [reflexivity | now rewrite IH]. Qed.

Lemma find_app c k v :
  contains c k = false -> find c (k ++ String c v) = Some (String.length k).
Proof.
  induction k as [|a k IH]; simpl; intros H.
  - now rewrite Ascii.eqb_refl.
  - apply orb_false_iff in H as [Ha Hk]. now rewrite Ha, IH.
Qed.

Lemma find_lt_length c : forall s i,
  find c s = Some i -> i < String.length s.
Proof.
  induction s as [|b s IH]; intros i H; simpl in *; [discriminate|].
  destruct (Ascii.eqb b c); [injection H as <-; lia|].
  destruct (find c s) as [j|]; [|discriminate].
  injection H as <-. specialize (IH j eq_refl). lia.
Qed.

Lemma find_split c : forall s i,
  find c s = Some i ->
  s = substr_to i s ++ String c (substr_from (i + 1) s)
  /\ contains c (substr_to i s) = false.
Proof.
  induction s as [|b s IH]; intros i H; simpl in *; [discriminate|].
  destruct (Ascii.eqb_spec b c) as [->|Hne].
  - injection H as <-. simpl. split; [|reflexivity]. now destruct s.
  - destruct (find c s) as [j|]; [|discriminate].
    injection H as <-. destruct (IH j eq_refl) as [E1 E2].
    simpl. split; [now rewrite <- E1|].
    rewrite E2. now apply Ascii.eqb_neq in Hne as ->.
Qed.

Lemma find_none c s : find c s = None <-> contains c s = false.
Proof.
  induction s as [|b s IH]; simpl; [tauto|].
  destruct (Ascii.eqb b c); simpl; [split; discriminate|].
  destruct (find c s); split; intros H; try discriminate; try reflexivity;
    apply IH in H; try assumption; discriminate.
Qed.

(** *** Reading lines *)

Lemma getlines_NL_nonempty a : getlines (a ++ NL) <> [].
Proof.
  induction a as [|c a IH]; simpl; [discriminate|].
  destruct (Ascii.eqb c newline); [discriminate|].
  destruct (getlines (a ++ NL)); discriminate.
Qed.

Lemma getlines_app_NL a b :
  getlines (a ++ NL ++ b) = (getlines (a ++ NL) ++ getlines b)%list.
Proof.
  induction a as [|c a IH]; [reflexivity|].
  cbn [append getlines]. destruct (Ascii.eqb c newline).
  - now rewrite IH.
  - rewrite IH. pose proof (getlines_NL_nonempty a) as Hne.
    destruct (getlines (a ++ NL)); [contradiction|reflexivity].
Qed.

Lemma getlines_one l : newline_free l = true -> getlines (l ++ NL) = [l].
Proof.
  unfold newline_free. induction l as [|c l IH]; intros H; [reflexivity|].
  simpl in H. apply negb_true_iff, orb_false_iff in H as [Hc Hl].
  cbn [append getlines]. rewrite Hc, IH by now rewrite Hl. reflexivity.
Qed.

Lemma getlines_cons l b :
  newline_free l = true -> getlines (l ++ NL ++ b) = l :: getlines b.
Proof. intros H. now rewrite getlines_app_NL, getlines_one. Qed.

Lemma getlines_unlines ls :
  forallb newline_free ls = true -> getlines (unlines ls) = ls.
Proof.
  induction ls as [|l ls IH]; intros H; [reflexivity|].
  simpl in H. apply andb_true_iff in H as [Hl Hls].
  cbn [unlines]. now rewrite getlines_cons, IH.
Qed.

(** The loop of [getlines] is the iteration of [getline] until the stream
    is exhausted. *)
Lemma getlines_getline s :
  s <> "" -> getlines s = fst (getline s) :: getlines (snd (getline s)).
Proof.
  induction s as [|c s IH]; intros Hs; [contradiction|].
  cbn [getlines getline]. destruct (Ascii.eqb c newline); [reflexivity|].
  destruct s as [|d s]; [reflexivity|].
  rewrite IH by discriminate. now destruct (getline (String d s)).
Qed.

Lemma unlines_app ls ms : unlines (ls ++ ms) = unlines ls ++ unlines ms.
Proof.
  induction ls as [|l ls IH]; [reflexivity|].
  cbn [app unlines]. now rewrite IH, !append_assoc.
Qed.

End StringFacts.

(** ** The fingerprint *)

Module HashingFacts.

Import StdString Hashing StringFacts Reference Hex Lines.
Local Open Scope Z_scope.

Lemma hex_fixed_S k n :
  hex_fixed (S k) n = (hex_fixed k (n / 16) ++ String (hex_digit (n mod 16)) "")%string.
Proof. reflexivity. Qed.

Lemma fnv_step_range h c : 0 <= fnv_step h c < UINT_RANGE.
Proof. unfold fnv_step. apply Z.mod_pos_bound. reflexivity. Qed.

Lemma fnv_loop_range content : forall h,
  0 <= h < UINT_RANGE -> 0 <= fnv_loop content h < UINT_RANGE.
Proof.
  induction content as [|c rest IH]; intros h Hh; simpl; [assumption|].
  apply IH, fnv_step_range.
Qed.

Lemma offset_basis_range : 0 <= FNV_OFFSET_BASIS < UINT_RANGE.
Proof. unfold FNV_OFFSET_BASIS, UINT_RANGE. lia. Qed.

Lemma hex_fixed_zero k : hex_fixed k 0 = fill_string k "0"%char.
Proof.
  induction k as [|k IH]; [reflexivity|].
  rewrite hex_fixed_S. change (0 / 16) with 0. rewrite IH.
  change (hex_digit (0 mod 16)) with "0"%char.
  clear IH. induction k as [|k IH]; [reflexivity|].
  cbn [fill_string append]. now rewrite IH.
Qed.

Lemma length_hex_fixed k n : String.length (hex_fixed k n) = k.
Proof.
  revert n. induction k as [|k IH]; intros n; [reflexivity|].
  rewrite hex_fixed_S, length_append, IH. simpl. lia.
Qed.

(** With enough fuel, the digits printed are those of the fixed width
    rendering with its leading zeros taken away. *)
Lemma to_hex_aux_fixed : forall k fuel n acc,
  0 <= n < 16 ^ Z.of_nat (S k) -> n < 16 ^ Z.of_nat fuel -> (0 < fuel)%nat ->
  exists j, (j <= k)%nat /\
    String.length (to_hex_aux fuel n acc) = (S k - j + String.length acc)%nat /\
    (hex_fixed (S k) n ++ acc)%string
    = (fill_string j "0"%char ++ to_hex_aux fuel n acc)%string.
Proof.
  induction k as [|k IH]; intros fuel n acc Hn Hfuel Hpos.
  - destruct fuel as [|fuel]; [lia|].
    exists O. split; [lia|]. cbn [to_hex_aux].
    change (16 ^ Z.of_nat 1) with 16 in Hn.
    assert (n / 16 = 0) as -> by (apply Z.div_small; lia).
    cbn. split; reflexivity.
  - destruct fuel as [|fuel]; [lia|].
    cbn [to_hex_aux].
    destruct (Z.eqb_spec (n / 16) 0) as [E|E].
    + exists (S k). split; [lia|]. split; [cbn [String.length]; lia|].
      rewrite hex_fixed_S, E, hex_fixed_zero, append_assoc. reflexivity.
    + assert (Hq : 0 <= n / 16 < 16 ^ Z.of_nat (S k)).
      { split; [apply Z.div_pos; lia|].
        apply Z.div_lt_upper_bound; [lia|].
        rewrite <- Z.pow_succ_r by lia. rewrite <- Nat2Z.inj_succ. lia. }
      assert (Hf : n / 16 < 16 ^ Z.of_nat fuel).
      { apply Z.div_lt_upper_bound; [lia|].
        rewrite <- Z.pow_succ_r by lia. rewrite <- Nat2Z.inj_succ. lia. }
      assert (Hp : (0 < fuel)%nat).
      { destruct fuel; [|lia]. change (16 ^ Z.of_nat 0) with 1 in Hf. lia. }
      destruct (IH fuel (n / 16) (String (hex_digit (n mod 16)) acc) Hq Hf Hp)
        as (j & Hj & Hlen & Heq).
      exists j. split; [lia|]. split.
      * rewrite Hlen. cbn [String.length]. lia.
      * rewrite <- Heq, (hex_fixed_S (S k)), !append_assoc. reflexivity.
Qed.

Lemma to_hex_fuel n : 0 <= n -> n < 16 ^ Z.of_nat (S (Z.to_nat (Z.log2 n))).
Proof.
  intros Hn. rewrite Nat2Z.inj_succ, Z2Nat.id by apply Z.log2_nonneg.
  destruct (Z.eq_dec n 0) as [->|Hne]; [reflexivity|].
  apply Z.lt_le_trans with (2 ^ Z.succ (Z.log2 n)).
  - apply Z.log2_spec. lia.
  - apply Z.pow_le_mono_l. lia.
Qed.

Lemma setw_to_hex k n :
  0 <= n < 16 ^ Z.of_nat (S k) ->
  setw_setfill (S k) "0"%char (to_hex n) = hex_fixed (S k) n.
Proof.
  intros Hn. unfold setw_setfill, to_hex.
  destruct (to_hex_aux_fixed k _ n "" Hn (to_hex_fuel n (proj1 Hn)) (Nat.lt_0_succ _))
    as (j & Hj & Hlen & Heq).
  rewrite append_nil_r in Heq. rewrite Heq, Hlen. simpl String.length.
  f_equal. f_equal. lia.
Qed.

Lemma calculateHash_fixed content :
  calculateHash content = hex_fixed 8 (fnv_loop content FNV_OFFSET_BASIS).
Proof.
  unfold calculateHash. apply (setw_to_hex 7).
  apply fnv_loop_range, offset_basis_range.
Qed.

Lemma nibble_cases d : 0 <= d < 16 ->
  d = 0 \/ d = 1 \/ d = 2 \/ d = 3 \/ d = 4 \/ d = 5 \/ d = 6 \/ d = 7 \/
  d = 8 \/ d = 9 \/ d = 10 \/ d = 11 \/ d = 12 \/ d = 13 \/ d = 14 \/ d = 15.
Proof. lia. Qed.

Ltac each_nibble d H :=
  let C := fresh in
  pose proof (nibble_cases d H) as C;
  repeat (destruct C as [C|C]; [subst d; try reflexivity|]);
  subst d; try reflexivity.

Lemma hex_digit_lower d : 0 <= d < 16 -> is_lower_hex (hex_digit d) = true.
Proof. intros H. each_nibble d H. Qed.

Lemma hex_digit_val_digit d : 0 <= d < 16 -> hex_digit_val (hex_digit d) = d.
Proof. intros H. each_nibble d H. Qed.

Lemma hex_val_from_app s t : forall v,
  hex_val_from v (s ++ t) = hex_val_from (hex_val_from v s) t.
Proof. induction s as [|c s IH]; intros v; simpl; [reflexivity | apply IH]. Qed.

Lemma hex_val_fixed k : forall n, 0 <= n ->
  hex_val (hex_fixed k n) = n mod 16 ^ Z.of_nat k.
Proof.
  unfold hex_val. induction k as [|k IH]; intros n Hn.
  - simpl. now rewrite Z.mod_1_r.
  - rewrite hex_fixed_S, hex_val_from_app, IH by (apply Z.div_pos; lia).
    cbn [hex_val_from]. rewrite hex_digit_val_digit by (apply Z.mod_pos_bound; lia).
    rewrite Nat2Z.inj_succ, Z.pow_succ_r by lia.
    rewrite Z.rem_mul_r by lia. lia.
Qed.

Lemma hex_fixed_lower k : forall n c,
  contains c (hex_fixed k n) = true -> is_lower_hex c = true.
Proof.
  induction k as [|k IH]; intros n c H; [discriminate|].
  rewrite hex_fixed_S in H.
  assert (Happ : forall s t, contains c (s ++ t) = contains c s || contains c t).
  { intros s t. induction s as [|x s IHs]; simpl; [reflexivity|].
    now rewrite IHs, orb_assoc. }
  rewrite Happ in H. apply orb_true_iff in H as [H|H]; [now apply (IH (n / 16))|].
  simpl in H. rewrite orb_false_r in H. apply Ascii.eqb_eq in H. subst c.
  apply hex_digit_lower, Z.mod_pos_bound. lia.
Qed.

Lemma hex_fixed_8_inj a b :
  0 <= a < UINT_RANGE -> 0 <= b < UINT_RANGE ->
  hex_fixed 8 a = hex_fixed 8 b -> a = b.
Proof.
  intros Ha Hb H. apply (f_equal hex_val) in H.
  rewrite !hex_val_fixed in H by lia.
  change (16 ^ Z.of_nat 8) with UINT_RANGE in H.
  now rewrite !Z.mod_small in H.
Qed.

(** ** Each step of the loop is a bijection of the 32-bit state *)

Lemma uchar_range c : 0 <= uchar c < 256.
Proof.
  unfold uchar. pose proof (N_ascii_bounded c). lia.
Qed.

Lemma uchar_inj a b : uchar a = uchar b -> a = b.
Proof.
  unfold uchar. intros H. apply N2Z.inj in H.
  rewrite <- (ascii_N_embedding a), <- (ascii_N_embedding b). now f_equal.
Qed.

Lemma lxor_uchar_range h c :
  0 <= h < UINT_RANGE -> 0 <= Z.lxor h (uchar c) < UINT_RANGE.
Proof.
  intros Hh. pose proof (uchar_range c) as Hc.
  assert (Hnn : 0 <= Z.lxor h (uchar c)) by (apply Z.lxor_nonneg; lia).
  split; [assumption|].
  destruct (Z.eq_dec (Z.lxor h (uchar c)) 0) as [->|Hne]; [reflexivity|].
  unfold UINT_RANGE. apply Z.log2_lt_pow2; [lia|].
  eapply Z.le_lt_trans; [apply Z.log2_lxor; lia|].
  apply Z.max_lub_lt.
  - destruct (Z.eq_dec h 0) as [->|Hh0]; [reflexivity|].
    apply Z.log2_lt_pow2; [lia|]. apply Hh.
  - destruct (Z.eq_dec (uchar c) 0) as [->|Hc0]; [reflexivity|].
    apply Z.log2_lt_pow2; lia.
Qed.

Lemma mul_prime_inj x y :
  0 <= x < UINT_RANGE -> 0 <= y < UINT_RANGE ->
  (x * FNV_PRIME) mod UINT_RANGE = (y * FNV_PRIME) mod UINT_RANGE -> x = y.
Proof.
  intros Hx Hy H.
  assert (Hinv : forall z, 0 <= z < UINT_RANGE ->
            (((z * FNV_PRIME) mod UINT_RANGE) * FNV_PRIME_INV) mod UINT_RANGE = z).
  { intros z Hz. rewrite Z.mul_mod_idemp_l by discriminate.
    rewrite <- Z.mul_assoc, <- Z.mul_mod_idemp_r by discriminate.
    change ((FNV_PRIME * FNV_PRIME_INV) mod UINT_RANGE) with 1.
    rewrite Z.mul_1_r. now apply Z.mod_small. }
  rewrite <- (Hinv x Hx), <- (Hinv y Hy). now rewrite H.
Qed.

Lemma fnv_step_inj_state h1 h2 c :
  0 <= h1 < UINT_RANGE -> 0 <= h2 < UINT_RANGE ->
  fnv_step h1 c = fnv_step h2 c -> h1 = h2.
Proof.
  intros H1 H2 H. unfold fnv_step in H.
  apply mul_prime_inj in H; try now apply lxor_uchar_range.
  apply Z.lxor_eq. rewrite <- (Z.lxor_nilpotent (Z.lxor h2 (uchar c))).
  rewrite <- H at 1. rewrite Z.lxor_assoc, <- (Z.lxor_assoc (uchar c)).
  rewrite (Z.lxor_comm (uchar c) h2), Z.lxor_assoc, Z.lxor_nilpotent, Z.lxor_0_r.
  reflexivity.
Qed.

Lemma fnv_step_inj_char h a b :
  0 <= h < UINT_RANGE -> fnv_step h a = fnv_step h b -> a = b.
Proof.
  intros Hh H. unfold fnv_step in H.
  apply mul_prime_inj in H; try now apply lxor_uchar_range.
  apply uchar_inj, Z.lxor_eq.
  rewrite <- (Z.lxor_nilpotent (Z.lxor h (uchar b))). rewrite <- H at 1.
  rewrite (Z.lxor_comm h (uchar a)), Z.lxor_assoc, <- (Z.lxor_assoc h).
  now rewrite Z.lxor_nilpotent, Z.lxor_0_l.
Qed.

Lemma fnv_loop_inj content : forall h1 h2,
  0 <= h1 < UINT_RANGE -> 0 <= h2 < UINT_RANGE ->
  fnv_loop content h1 = fnv_loop content h2 -> h1 = h2.
Proof.
  induction content as [|c rest IH]; intros h1 h2 H1 H2 H; simpl in H; [assumption|].
  apply IH in H; try apply fnv_step_range.
  now apply fnv_step_inj_state in H.
Qed.

Lemma fnv_loop_app s t : forall h,
  fnv_loop (s ++ t) h = fnv_loop t (fnv_loop s h).
Proof. induction s as [|c s IH]; intros h; simpl; [reflexivity | apply IH]. Qed.

Lemma calculateHash_inj s t :
  calculateHash s = calculateHash t <->
  fnv_loop s FNV_OFFSET_BASIS = fnv_loop t FNV_OFFSET_BASIS.
Proof.
  rewrite !calculateHash_fixed. split; [|now intros ->].
  apply hex_fixed_8_inj; apply fnv_loop_range, offset_basis_range.
Qed.

Lemma hex_digit_char d : 0 <= d < 16 -> hex_digit d = digit_char d.
Proof. intros H. each_nibble d H. Qed.

Lemma hex_fixed_hex8 n : hex_fixed 8 n = hex8 n.
Proof.
  unfold hex8. cbn [hex_fixed append map string_of_list_ascii].
  rewrite !Z.div_div by lia.
  rewrite !hex_digit_char by (apply Z.mod_pos_bound; lia).
  rewrite <- (Z.div_1_r n) at 8. reflexivity.
Qed.

Lemma fnv_loop_fold content : forall h,
  fnv_loop content h
  = fold_left (fun acc b => (Z.lxor acc b * 16777619) mod 2 ^ 32)
              (bytes_of content) h.
Proof. induction content as [|c s IH]; intros h; [reflexivity | apply IH]. Qed.

Lemma calculateHash_lower content :
  forallb is_lower_hex (list_ascii_of_string (Hashing.calculateHash content)) = true.
Proof.
  apply forallb_forall. intros c Hc.
  apply (hex_fixed_lower 8 (fnv_loop content FNV_OFFSET_BASIS)).
  rewrite <- calculateHash_fixed.
  induction (Hashing.calculateHash content) as [|x s IH]; [destruct Hc|].
  simpl in *. destruct Hc as [->|Hc]; [now rewrite Ascii.eqb_refl|].
  rewrite IH by assumption. apply orb_true_r.
Qed.

Lemma calculateHash_newline_free content :
  newline_free (Hashing.calculateHash content) = true.
Proof.
  unfold newline_free. apply negb_true_iff.
  destruct (contains newline (Hashing.calculateHash content)) eqn:E; [|reflexivity].
  rewrite calculateHash_fixed in E. apply hex_fixed_lower in E. discriminate.
Qed.

End HashingFacts.

(** ** The order of paths and [std::sort] *)

Module OrderFacts.

Lemma ascii_compare_refl a : Ascii.compare a a = Eq.
Proof. apply N.compare_refl. Qed.

Lemma compare_refl s : String.compare s s = Eq.
Proof. induction s as [|a s IH]; simpl; [reflexivity|]. now rewrite ascii_compare_refl. Qed.

Lemma ascii_compare_lt_trans a b c :
  Ascii.compare a b = Lt -> Ascii.compare b c = Lt -> Ascii.compare a c = Lt.
Proof.
  unfold Ascii.compare. rewrite !N.compare_lt_iff. apply N.lt_trans.
Qed.

Lemma compare_lt_trans : forall s1 s2 s3,
  String.compare s1 s2 = Lt -> String.compare s2 s3 = Lt ->
  String.compare s1 s3 = Lt.
Proof.
  induction s1 as [|a s1 IH]; intros [|b s2] [|c s3] H12 H23;
    simpl in *; try discriminate; try reflexivity.
  destruct (Ascii.compare a b) eqn:Eab; try discriminate;
    destruct (Ascii.compare b c) eqn:Ebc; try discriminate.
  - apply Ascii.compare_eq_iff in Eab, Ebc. subst.
    rewrite ascii_compare_refl. now apply (IH s2).
  - apply Ascii.compare_eq_iff in Eab. subst. now rewrite Ebc.
  - apply Ascii.compare_eq_iff in Ebc. subst. now rewrite Eab.
  - now rewrite (ascii_compare_lt_trans a b c).
Qed.

Lemma ltb_irrefl s : String.ltb s s = false.
Proof. unfold String.ltb. now rewrite compare_refl. Qed.

Lemma ltb_trans s1 s2 s3 :
  String.ltb s1 s2 = true -> String.ltb s2 s3 = true -> String.ltb s1 s3 = true.
Proof.
  unfold String.ltb. intros H12 H23.
  destruct (String.compare s1 s2) eqn:E12; try discriminate.
  destruct (String.compare s2 s3) eqn:E23; try discriminate.
  now rewrite (compare_lt_trans _ _ _ E12 E23).
Qed.

Lemma ltb_asym s1 s2 : String.ltb s1 s2 = true -> String.ltb s2 s1 = false.
Proof.
  intros H. destruct (String.ltb s2 s1) eqn:E; [|reflexivity].
  pose proof (ltb_trans _ _ _ H E) as C. now rewrite ltb_irrefl in C.
Qed.

Lemma ltb_total s1 s2 :
  String.ltb s1 s2 = false -> String.ltb s2 s1 = false -> s1 = s2.
Proof.
  unfold String.ltb. rewrite (String.compare_antisym s2 s1).
  destruct (String.compare s1 s2) eqn:E; simpl; try discriminate.
  intros _ _. now apply String.compare_eq_iff.
Qed.

End OrderFacts.

Module SortFacts.

Import Commit OrderFacts WF.

Lemma before_trans a b c : before a b -> before b c -> before a c.
Proof. apply ltb_trans. Qed.

Lemma sort_insert_perm x v : Permutation (x :: v) (sort_insert x v).
Proof.
  induction v as [|y v IH]; simpl; [reflexivity|].
  destruct (comp x y); [reflexivity|].
  rewrite perm_swap. now apply perm_skip.
Qed.

Lemma std_sort_perm v : Permutation v (std_sort v).
Proof.
  induction v as [|x v IH]; simpl; [constructor|].
  rewrite <- sort_insert_perm. now apply perm_skip.
Qed.

Lemma keys_perm m m' : Permutation m m' -> Permutation (keys m) (keys m').
Proof. apply Permutation_map. Qed.

Lemma sort_insert_sorted x v :
  ~ In (fst x) (keys v) -> StronglySorted before v ->
  StronglySorted before (sort_insert x v).
Proof.
  induction v as [|y v IH]; intros Hx Hs; simpl.
  - repeat constructor.
  - inversion Hs as [|? ? Hv Hy]; subst.
    destruct (comp x y) eqn:E.
    + constructor; [assumption|]. constructor; [exact E|].
      eapply Forall_impl; [|exact Hy]. intros z Hz. now apply (before_trans x y z).
    + assert (Hyx : before y x).
      { unfold before, comp in *.
        destruct (String.ltb (fst y) (fst x)) eqn:E'; [reflexivity|].
        exfalso. apply Hx. left. symmetry. now apply ltb_total. }
      constructor.
      * apply IH; [|assumption]. intros Hin. apply Hx. now right.
      * rewrite <- sort_insert_perm. now constructor.
Qed.

Lemma std_sort_sorted v :
  NoDup (keys v) -> StronglySorted before (std_sort v).
Proof.
  induction v as [|x v IH]; intros Hnd; simpl; [constructor|].
  inversion Hnd as [|? ? Hx Hv]; subst.
  apply sort_insert_sorted; [|now apply IH].
  intros Hin. apply Hx.
  eapply Permutation_in; [|exact Hin].
  symmetry. apply keys_perm, std_sort_perm.
Qed.

(** Two sorted arrangements of the same entries are the same sequence:
    whatever algorithm [std::sort] runs, its result on entries with
    distinct keys is this one. *)
Lemma sorted_perm_eq : forall v w,
  StronglySorted before v -> StronglySorted before w ->
  Permutation v w -> v = w.
Proof.
  induction v as [|x v IH]; intros w Hv Hw Hp.
  - apply Permutation_nil in Hp. now subst.
  - destruct w as [|y w]; [apply Permutation_sym, Permutation_nil in Hp; discriminate|].
    inversion Hv as [|? ? Hv' Hx]; subst.
    inversion Hw as [|? ? Hw' Hy]; subst.
    assert (x = y) as ->.
    { assert (Hxin : In x (y :: w)) by (eapply Permutation_in; [exact Hp|now left]).
      assert (Hyin : In y (x :: v))
        by (eapply Permutation_in; [symmetry; exact Hp|now left]).
      destruct Hxin as [->|Hxin]; [reflexivity|].
      destruct Hyin as [->|Hyin]; [reflexivity|].
      rewrite Forall_forall in Hx, Hy.
      pose proof (Hx _ Hyin) as Hxy. pose proof (Hy _ Hxin) as Hyx.
      unfold before, comp in Hxy, Hyx.
      apply ltb_asym in Hxy. congruence. }
    f_equal. apply IH; try assumption. now apply Permutation_cons_inv in Hp.
Qed.

Lemma std_sort_unique v w :
  NoDup (keys v) -> Permutation v w -> StronglySorted before w ->
  std_sort v = w.
Proof.
  intros Hnd Hp Hw. apply sorted_perm_eq; [now apply std_sort_sorted|assumption|].
  now rewrite <- std_sort_perm.
Qed.

Lemma std_sort_permuted v w :
  NoDup (keys v) -> Permutation v w -> std_sort v = std_sort w.
Proof.
  intros Hnd Hp. apply std_sort_unique; [assumption| |].
  - now rewrite <- std_sort_perm.
  - apply std_sort_sorted. eapply Permutation_NoDup; [|exact Hnd].
    now apply keys_perm.
Qed.

Lemma std_sort_idem v : NoDup (keys v) -> std_sort (std_sort v) = std_sort v.
Proof.
  intros Hnd. symmetry. apply std_sort_permuted; [assumption|apply std_sort_perm].
Qed.

Lemma sorted_keys_NoDup v : StronglySorted before v -> NoDup (keys v).
Proof.
  induction 1 as [|x v Hv IH Hx]; simpl; constructor; [|assumption].
  intros Hin. apply in_map_iff in Hin as (y & Hy & Hin).
  rewrite Forall_forall in Hx. specialize (Hx _ Hin).
  unfold before, comp in Hx. rewrite Hy, ltb_irrefl in Hx. discriminate.
Qed.

End SortFacts.

(** ** The table *)

Module MapFacts.

Import Commit.

Lemma assign_fresh k v m : ~ In k (keys m) -> assign k v m = (m ++ [(k, v)])%list.
Proof.
  induction m as [|[k' v'] m IH]; intros H; simpl; [reflexivity|].
  destruct (String.eqb_spec k' k) as [->|Hne]; [exfalso; apply H; now left|].
  rewrite IH; [reflexivity|]. intros Hin. apply H. now right.
Qed.

Lemma keys_assign k v m :
  keys (assign k v m) = if existsb (String.eqb k) (keys m) then keys m
                        else (keys m ++ [k])%list.
Proof.
  induction m as [|[k' v'] m IH]; simpl; [reflexivity|].
  rewrite (String.eqb_sym k k').
  destruct (String.eqb k' k) eqn:E; simpl; [reflexivity|].
  rewrite IH. now destruct (existsb (String.eqb k) (keys m)).
Qed.

Lemma assign_NoDup k v m : NoDup (keys m) -> NoDup (keys (assign k v m)).
Proof.
  intros H. rewrite keys_assign.
  destruct (existsb (String.eqb k) (keys m)) eqn:E; [assumption|].
  apply NoDup_app; [assumption|repeat constructor; intros []|].
  intros x Hx [<-|[]].
  assert (existsb (String.eqb k) (keys m) = true); [|congruence].
  apply existsb_exists. exists k. split; [assumption|apply String.eqb_refl].
Qed.

Lemma lookup_assign_eq k v m : lookup k (assign k v m) = Some v.
Proof.
  induction m as [|[k' v'] m IH]; simpl; [now rewrite String.eqb_refl|].
  destruct (String.eqb k' k) eqn:E; simpl; rewrite E; [reflexivity|assumption].
Qed.

Lemma lookup_assign_ne k k' v m : k <> k' -> lookup k' (assign k v m) = lookup k' m.
Proof.
  intros Hne. induction m as [|[k0 v0] m IH]; simpl.
  - now apply String.eqb_neq in Hne as ->.
  - destruct (String.eqb_spec k0 k) as [->|H0]; simpl.
    + now apply String.eqb_neq in Hne as ->.
    + now rewrite IH.
Qed.

Lemma fold_assign_fresh es : forall m,
  NoDup (keys (m ++ es)%list) ->
  fold_left (fun m e => assign (fst e) (snd e) m) es m = (m ++ es)%list.
Proof.
  induction es as [|[k v] es IH]; intros m H; simpl.
  - now rewrite List.app_nil_r.
  - assert (Hfresh : ~ In k (keys m)).
    { unfold keys in *. rewrite map_app in H. simpl in H.
      apply NoDup_remove_2 in H. intros Hin. apply H, in_or_app. now left. }
    rewrite assign_fresh by assumption.
    rewrite IH; rewrite <- List.app_assoc; [reflexivity|exact H].
Qed.

Lemma inserted_distinct es : NoDup (keys es) -> inserted es = es.
Proof. intros H. unfold inserted. now rewrite fold_assign_fresh. Qed.

End MapFacts.

(** ** Encoders and decoder *)

Module CodecFacts.

Import StdString Commit StringFacts Lines OrderFacts SortFacts MapFacts.

(** *** What the two encoders emit, as lists of lines *)

Lemma emit_parents_unlines ps : forall ss,
  emit_parents ss ps = ss ++ unlines (map parent_line ps).
Proof.
  unfold emit_parents.
  induction ps as [|p ps IH]; intros ss; cbn [fold_left map unlines];
    [now rewrite append_nil_r|].
  rewrite IH. unfold parent_line. now rewrite !append_assoc.
Qed.

Lemma emit_files_unlines es : forall ss,
  emit_files ss es = ss ++ unlines (map file_line es).
Proof.
  unfold emit_files.
  induction es as [|e es IH]; intros ss; cbn [fold_left map unlines];
    [now rewrite append_nil_r|].
  rewrite IH. unfold file_line. now rewrite !append_assoc.
Qed.

Lemma emit_tree_unlines es : forall ss,
  emit_tree ss es = ss ++ unlines (map tree_line es).
Proof.
  unfold emit_tree.
  induction es as [|e es IH]; intros ss; cbn [fold_left map unlines];
    [now rewrite append_nil_r|].
  rewrite IH. unfold tree_line. now rewrite !append_assoc.
Qed.

Lemma serialize_unlines c : serialize c = unlines (stored_lines c).
Proof.
  unfold serialize, stored_lines.
  rewrite emit_files_unlines, emit_parents_unlines.
  rewrite !unlines_app. cbn [unlines]. rewrite !append_assoc. reflexivity.
Qed.

Lemma contentToHash_unlines c : contentToHash c = unlines (hash_input_lines c).
Proof.
  unfold contentToHash, hash_input_lines.
  rewrite emit_tree_unlines, emit_parents_unlines.
  rewrite !unlines_app. cbn [unlines]. rewrite !append_assoc. reflexivity.
Qed.

(** *** The loop, line by line *)

Lemma while_getline_app ls ms st :
  while_getline (ls ++ ms) st =
  match while_getline ls st with
  | Ok st' => while_getline ms st'
  | Throw e => Throw e
  end.
Proof.
  revert st. induction ls as [|l ls IH]; intros st; [reflexivity|].
  cbn [app while_getline]. destruct (loop_body l st); [apply IH | reflexivity].
Qed.

Lemma loop_body_hash h st :
  loop_body ("hash:" ++ h) st =
  Ok (mkLocals (set_hash h (commit st))
               (deserializedParentHashes st) (deserializedFileBlobs st)).
Proof. unfold loop_body. cbn. now destruct h. Qed.

Lemma loop_body_message m st :
  loop_body ("message:" ++ m) st =
  Ok (mkLocals (set_message m (commit st))
               (deserializedParentHashes st) (deserializedFileBlobs st)).
Proof. unfold loop_body. cbn. now destruct m. Qed.

Lemma loop_body_timestamp t st :
  loop_body ("timestamp:" ++ t) st =
  Ok (mkLocals (set_timestamp t (commit st))
               (deserializedParentHashes st) (deserializedFileBlobs st)).
Proof. unfold loop_body. cbn. now destruct t. Qed.

Lemma loop_body_parent p st :
  loop_body (parent_line p) st =
  Ok (mkLocals (commit st) (deserializedParentHashes st ++ [p])%list
               (deserializedFileBlobs st)).
Proof. unfold loop_body, parent_line. cbn. now destruct p. Qed.

Lemma file_entry_file_line e :
  space_free (fst e) = true -> file_entry (file_line e) = Some e.
Proof.
  unfold space_free, file_entry, file_line. intros H. apply negb_true_iff in H.
  destruct e as [k v]. cbn [fst snd] in *.
  assert (E5 : substr_from 5 ("file:" ++ k ++ " " ++ v) = k ++ String space v)
    by now destruct k.
  assert (E0 : starts_with "file:" ("file:" ++ k ++ " " ++ v) = true)
    by apply starts_with_app.
  rewrite E0, E5, find_app by assumption.
  rewrite substr_to_app.
  replace (String.length k + 1) with (String.length (k ++ String space "")).
  - change (k ++ String space v) with (k ++ String space ("" ++ v)).
    rewrite <- (append_assoc k (String space "") v) at 1.
    now rewrite substr_from_app.
  - rewrite length_append. reflexivity.
Qed.

Lemma starts_with_file_only line :
  starts_with "file:" line = true ->
  starts_with "type:" line = false /\ starts_with "hash:" line = false /\
  starts_with "message:" line = false /\ starts_with "timestamp:" line = false /\
  starts_with "parent:" line = false.
Proof.
  destruct line as [|c line]; [discriminate|]. cbn [starts_with].
  intros H. apply andb_true_iff in H as [H _]. apply Ascii.eqb_eq in H. subst c.
  repeat split; reflexivity.
Qed.

Lemma loop_body_file_entry line st :
  starts_with "file:" line = true ->
  loop_body line st =
  match file_entry line with
  | Some e => Ok (mkLocals (commit st) (deserializedParentHashes st)
                    (assign (fst e) (snd e) (deserializedFileBlobs st)))
  | None => Throw bad_file_entry
  end.
Proof.
  intros H. destruct (starts_with_file_only line H) as (H1 & H2 & H3 & H4 & H5).
  unfold loop_body, file_entry. rewrite H, H1, H2, H3, H4, H5.
  now destruct (find space (substr_from 5 line)).
Qed.

Lemma loop_body_file e st :
  space_free (fst e) = true ->
  loop_body (file_line e) st =
  Ok (mkLocals (commit st) (deserializedParentHashes st)
        (assign (fst e) (snd e) (deserializedFileBlobs st))).
Proof.
  intros H. rewrite loop_body_file_entry by apply starts_with_app.
  now rewrite file_entry_file_line.
Qed.

Lemma loop_body_tree_line e st : loop_body (tree_line e) st = Ok st.
Proof. reflexivity. Qed.

Lemma while_parents ps : forall more c parents blobs,
  while_getline (map parent_line ps ++ more) (mkLocals c parents blobs) =
  while_getline more (mkLocals c (parents ++ ps)%list blobs).
Proof.
  induction ps as [|p ps IH]; intros more c parents blobs.
  - cbn [map app]. now rewrite List.app_nil_r.
  - cbn [map app while_getline]. rewrite loop_body_parent.
    cbn [commit deserializedParentHashes deserializedFileBlobs].
    rewrite IH, <- List.app_assoc. reflexivity.
Qed.

Lemma while_files es : forall more c parents blobs,
  forallb (fun e => space_free (fst e)) es = true ->
  while_getline (map file_line es ++ more) (mkLocals c parents blobs) =
  while_getline more
    (mkLocals c parents (fold_left (fun m e => assign (fst e) (snd e) m) es blobs)).
Proof.
  induction es as [|e es IH]; intros more c parents blobs H; [reflexivity|].
  cbn [forallb] in H. apply andb_true_iff in H as [He Hes].
  cbn [map app while_getline]. rewrite loop_body_file by assumption.
  cbn [commit deserializedParentHashes deserializedFileBlobs fold_left].
  now rewrite IH.
Qed.

Lemma while_tree es : forall more st,
  while_getline (map tree_line es ++ more) st = while_getline more st.
Proof.
  induction es as [|e es IH]; intros more st; [reflexivity|].
  cbn [map app while_getline]. rewrite loop_body_tree_line. apply IH.
Qed.

End CodecFacts.

Module RoundTrip.

Import StdString Commit StringFacts Lines OrderFacts SortFacts
       MapFacts CodecFacts WF.

Ltac split_andb :=
  repeat match goal with
         | H : _ && _ = true |- _ => apply andb_true_iff in H; destruct H
         end.

Lemma forallb_perm {A} (P : A -> bool) l l' :
  Permutation l l' -> forallb P l = true -> forallb P l' = true.
Proof.
  intros Hp. rewrite !forallb_forall. intros H x Hx.
  apply H. eapply Permutation_in; [symmetry; exact Hp|exact Hx].
Qed.

Lemma forallb_map {A B} (f : A -> B) (P : B -> bool) l :
  forallb P (map f l) = forallb (fun x => P (f x)) l.
Proof. induction l as [|x l IH]; simpl; [reflexivity | now rewrite IH]. Qed.

Lemma forallb_weaken {A} (P Q : A -> bool) l :
  (forall x, P x = true -> Q x = true) ->
  forallb P l = true -> forallb Q l = true.
Proof. rewrite !forallb_forall. auto. Qed.

Lemma newline_free_app s t :
  newline_free (s ++ t) = newline_free s && newline_free t.
Proof. unfold newline_free. now rewrite contains_app, negb_orb. Qed.

Lemma newline_free_parent_line p : newline_free (parent_line p) = newline_free p.
Proof. reflexivity. Qed.

Lemma newline_free_file_line e :
  well_formed_entry e = true -> newline_free (file_line e) = true.
Proof.
  unfold well_formed_entry, file_line. intros H.
  apply andb_true_iff in H as [H Hv]. apply andb_true_iff in H as [Hk _].
  rewrite !newline_free_app, Hk, Hv. reflexivity.
Qed.

Lemma newline_free_tree_line e :
  well_formed_entry e = true -> newline_free (tree_line e) = true.
Proof.
  unfold well_formed_entry, tree_line. intros H.
  apply andb_true_iff in H as [H Hv]. apply andb_true_iff in H as [Hk _].
  rewrite !newline_free_app, Hk, Hv. reflexivity.
Qed.

Lemma well_formed_sorted m :
  forallb well_formed_entry m = true ->
  forallb well_formed_entry (std_sort m) = true.
Proof. apply forallb_perm, std_sort_perm. Qed.

Lemma stored_lines_newline_free c :
  well_formed c = true -> forallb newline_free (stored_lines c) = true.
Proof.
  unfold well_formed, well_formed_fields, stored_lines. intros H. split_andb.
  rewrite !forallb_app. cbn [forallb]. rewrite !forallb_map.
  repeat (apply andb_true_iff; split); try assumption; try reflexivity.
  - eapply forallb_weaken; [|apply well_formed_sorted; eassumption].
    apply newline_free_file_line.
Qed.

Lemma hash_input_lines_newline_free c :
  well_formed_fields c = true -> forallb newline_free (hash_input_lines c) = true.
Proof.
  unfold well_formed_fields, hash_input_lines. intros H. split_andb.
  rewrite !forallb_app. cbn [forallb]. rewrite !forallb_map.
  repeat (apply andb_true_iff; split); try assumption; try reflexivity.
  - eapply forallb_weaken; [|apply well_formed_sorted; eassumption].
    apply newline_free_tree_line.
Qed.

Lemma while_step l more st st' :
  loop_body l st = Ok st' ->
  while_getline (l :: more) st = while_getline more st'.
Proof. intros H. cbn [while_getline]. now rewrite H. Qed.

(** Decoding the stored form of a well-formed record gives the record
    back, its table holding the entries in sorted order. *)
Lemma deserialize_serialize c :
  well_formed c = true -> distinct_keys (fileBlobs c) ->
  deserialize (serialize c) =
  Ok (mkCommitNode (hash c) (parentHashes c) (message c) (timestamp c)
                   (std_sort (fileBlobs c))).
Proof.
  intros Hwf Hnd. unfold deserialize.
  rewrite serialize_unlines, getlines_unlines by now apply stored_lines_newline_free.
  unfold stored_lines, initial_locals. cbn [app].
  rewrite (while_step "type:commit" _ _ _ eq_refl).
  erewrite while_step by apply loop_body_hash.
  erewrite while_step by apply loop_body_message.
  erewrite while_step by apply loop_body_timestamp.
  cbn [commit deserializedParentHashes deserializedFileBlobs
       set_hash set_message set_timestamp hash message timestamp
       parentHashes fileBlobs].
  rewrite while_parents.
  rewrite <- (List.app_nil_r (map file_line _)), while_files.
  - cbn [while_getline commit deserializedParentHashes deserializedFileBlobs
         hash message timestamp app].
    rewrite fold_assign_fresh; [reflexivity|].
    cbn [app]. apply sorted_keys_NoDup, std_sort_sorted, Hnd.
  - unfold well_formed, well_formed_fields in Hwf. split_andb.
    eapply forallb_weaken; [|apply well_formed_sorted; eassumption].
    unfold well_formed_entry. intros e He. now split_andb.
Qed.

(** Decoding the text that is fingerprinted: its [commit], [tree:] and
    indented entry lines carry no prefix the decoder knows, so that the
    table comes back empty, and so does the identifier. *)
Lemma deserialize_contentToHash c :
  well_formed_fields c = true ->
  deserialize (contentToHash c) =
  Ok (mkCommitNode "" (parentHashes c) (message c) (timestamp c) []).
Proof.
  intros Hwf. unfold deserialize.
  rewrite contentToHash_unlines, getlines_unlines
    by now apply hash_input_lines_newline_free.
  unfold hash_input_lines, initial_locals. cbn [app].
  rewrite (while_step "commit" _ _ _ eq_refl).
  erewrite while_step by apply loop_body_message.
  erewrite while_step by apply loop_body_timestamp.
  cbn [commit deserializedParentHashes deserializedFileBlobs
       set_hash set_message set_timestamp hash message timestamp
       parentHashes fileBlobs].
  rewrite while_parents. cbn [app].
  rewrite (while_step "tree:" _ _ _ eq_refl).
  rewrite <- (List.app_nil_r (map tree_line _)), while_tree.
  reflexivity.
Qed.

(** The text that is fingerprinted depends on the table through its sorted
    entries only. *)
Lemma contentToHash_ext c c' :
  message c = message c' -> timestamp c = timestamp c' ->
  parentHashes c = parentHashes c' ->
  std_sort (fileBlobs c) = std_sort (fileBlobs c') ->
  contentToHash c = contentToHash c'.
Proof. unfold contentToHash. now intros -> -> -> ->. Qed.

Lemma serialize_ext c c' :
  hash c = hash c' -> message c = message c' -> timestamp c = timestamp c' ->
  parentHashes c = parentHashes c' ->
  std_sort (fileBlobs c) = std_sort (fileBlobs c') ->
  serialize c = serialize c'.
Proof. unfold serialize. now intros -> -> -> -> ->. Qed.

End RoundTrip.

Module LoopFacts.

Import StdString Commit StringFacts Lines MapFacts CodecFacts.

Lemma file_entry_not_file line :
  starts_with "file:" line = false -> file_entry line = None.
Proof. unfold file_entry. now intros ->. Qed.

Lemma is_bad_file_entry line :
  is_bad_file line = true <->
  starts_with "file:" line = true /\ file_entry line = None.
Proof.
  unfold is_bad_file, file_entry.
  destruct (starts_with "file:" line); cbn [andb];
    [|split; [discriminate|now intros []]].
  destruct (find space (substr_from 5 line)); split; intros H;
    try discriminate; try (now destruct H); auto.
Qed.

Lemma loop_body_bad_file line st :
  is_bad_file line = true -> loop_body line st = Throw bad_file_entry.
Proof.
  intros H. apply is_bad_file_entry in H as [H1 H2].
  now rewrite loop_body_file_entry, H2.
Qed.

Lemma loop_body_bad_type line st :
  is_bad_type line = true -> loop_body line st = Throw (bad_type (substr_from 5 line)).
Proof.
  unfold is_bad_type, loop_body. intros H.
  apply andb_true_iff in H as [-> H]. apply negb_true_iff in H. now rewrite H.
Qed.

(** A line that is not a [file:] line leaves the table alone, whatever
    else it does. *)
Lemma loop_body_other line st :
  starts_with "file:" line = false ->
  (is_bad_type line = true /\ loop_body line st = Throw (bad_type (substr_from 5 line)))
  \/ (is_bad_type line = false /\
      exists c ps, loop_body line st = Ok (mkLocals c ps (deserializedFileBlobs st))
                   /\ (starts_with "message:" line = false ->
                       message c = message (commit st))).
Proof.
  intros Hf. unfold is_bad_type, loop_body. rewrite Hf.
  destruct (starts_with "type:" line) eqn:Ht.
  { destruct (String.eqb (substr_from 5 line) "commit"); simpl; [right|left; auto].
    split; [reflexivity|]. destruct st as [c ps m]. now exists c, ps. }
  right. split; [reflexivity|].
  destruct (starts_with "hash:" line); [eexists _, _; split; [reflexivity|auto]|].
  destruct (starts_with "message:" line);
    [eexists _, _; split; [reflexivity|discriminate]|].
  destruct (starts_with "timestamp:" line); [eexists _, _; split; [reflexivity|auto]|].
  destruct (starts_with "parent:" line); [eexists _, _; split; [reflexivity|auto]|].
  destruct st as [c ps m]. now exists c, ps.
Qed.

Lemma loop_body_cases line st :
  (exists st', loop_body line st = Ok st'
     /\ throws line = false
     /\ deserializedFileBlobs st' = apply_file_line (deserializedFileBlobs st) line
     /\ (starts_with "message:" line = false ->
         message (commit st') = message (commit st)))
  \/ (is_bad_type line = true /\ loop_body line st = Throw (bad_type (substr_from 5 line)))
  \/ (is_bad_type line = false /\ is_bad_file line = true
      /\ loop_body line st = Throw bad_file_entry).
Proof.
  destruct (starts_with "file:" line) eqn:Hf.
  - destruct (starts_with_file_only line Hf) as (Ht & _).
    assert (Hbt : is_bad_type line = false) by (unfold is_bad_type; now rewrite Ht).
    rewrite loop_body_file_entry by assumption.
    unfold throws, apply_file_line. rewrite Hbt. cbn [orb].
    destruct (file_entry line) as [e|] eqn:He.
    + left. eexists. split; [reflexivity|]. split; [|split; [reflexivity|reflexivity]].
      destruct (is_bad_file line) eqn:Hb; [|reflexivity].
      apply is_bad_file_entry in Hb as [_ Hb]. congruence.
    + right. right. split; [reflexivity|]. split; [|reflexivity].
      now apply is_bad_file_entry.
  - destruct (loop_body_other line st Hf) as [[Hb H]|[Hb (c & ps & H & Hm)]].
    + right. left. now split.
    + left. eexists. split; [exact H|]. unfold throws, apply_file_line.
      rewrite Hb, (file_entry_not_file line Hf). cbn [orb].
      split; [|split; [reflexivity|exact Hm]].
      unfold is_bad_file. now rewrite Hf.
Qed.

(** The loop ends normally exactly when no line throws, and then the table
    has received the [file:] lines in order. *)
Lemma while_getline_ok lines : forall st,
  forallb (fun l => negb (throws l)) lines = true ->
  exists st', while_getline lines st = Ok st'
    /\ deserializedFileBlobs st'
       = fold_left apply_file_line lines (deserializedFileBlobs st).
Proof.
  induction lines as [|l lines IH]; intros st H; [now exists st|].
  cbn [forallb] in H. apply andb_true_iff in H as [Hl H].
  apply negb_true_iff in Hl.
  destruct (loop_body_cases l st) as [(st1 & E & _ & Hb & _)|[[Hb E]|(_ & Hb & E)]].
  - destruct (IH st1 H) as (st' & E' & Hb').
    exists st'. cbn [while_getline fold_left]. rewrite E, E', Hb', Hb. auto.
  - unfold throws in Hl. rewrite Hb in Hl. discriminate.
  - unfold throws in Hl. rewrite Hb, orb_true_r in Hl. discriminate.
Qed.

Lemma while_getline_blobs lines : forall st st',
  while_getline lines st = Ok st' ->
  deserializedFileBlobs st'
  = fold_left apply_file_line lines (deserializedFileBlobs st).
Proof.
  induction lines as [|l lines IH]; intros st st' H.
  - injection H as <-. reflexivity.
  - cbn [while_getline] in H.
    destruct (loop_body_cases l st) as [(st1 & E & _ & Hb & _)|[[Hb E]|(_ & Hb & E)]];
      rewrite E in H; try discriminate.
    cbn [fold_left]. rewrite <- Hb. now apply IH.
Qed.


(** A line that throws stops the loop, whatever comes before it; what is
    thrown is decided by the first line that throws. *)
Lemma while_getline_throws pre line post : forall st,
  throws line = true ->
  exists e, while_getline (pre ++ line :: post) st = Throw e.
Proof.
  induction pre as [|l pre IH]; intros st H.
  - cbn [app while_getline].
    destruct (loop_body_cases line st) as [(st1 & _ & E & _)|[[_ E]|(_ & _ & E)]];
      [congruence| |]; rewrite E; eauto.
  - cbn [app while_getline].
    destruct (loop_body l st) as [st1|e]; [now apply IH | eauto].
Qed.

Lemma while_getline_bad_file pre line post : forall st,
  forallb (fun l => negb (is_bad_type l)) pre = true ->
  is_bad_file line = true ->
  while_getline (pre ++ line :: post) st = Throw bad_file_entry.
Proof.
  induction pre as [|l pre IH]; intros st Hpre H.
  - cbn [app while_getline]. now rewrite loop_body_bad_file.
  - cbn [forallb] in Hpre. apply andb_true_iff in Hpre as [Hl Hpre].
    apply negb_true_iff in Hl. cbn [app while_getline].
    destruct (loop_body_cases l st) as [(st1 & E & _)|[[Hb E]|(_ & _ & E)]];
      rewrite E; [now apply IH|congruence|reflexivity].
Qed.

(** Among lines one of which throws, there is a first one that does. *)
Lemma first_throw_split pre : forall line post,
  throws line = true ->
  exists before first after,
    (pre ++ line :: post = before ++ first :: after)%list
    /\ forallb (fun l => negb (throws l)) before = true
    /\ throws first = true
    /\ List.length before <= List.length pre.
Proof.
  induction pre as [|l pre IH]; intros line post H.
  - exists [], line, post. cbn. repeat split; auto.
  - destruct (throws l) eqn:E.
    + exists [], l, (pre ++ line :: post)%list. cbn. repeat split; auto. lia.
    + destruct (IH line post H) as (before & first & after & H1 & H2 & H3 & H4).
      exists (l :: before), first, after. cbn [app forallb List.length].
      rewrite H1, E, H2. repeat split; auto. lia.
Qed.

Lemma while_getline_first_throw pre line post : forall st,
  forallb (fun l => negb (throws l)) pre = true ->
  throws line = true ->
  while_getline (pre ++ line :: post) st
  = Throw (if is_bad_type line then bad_type (substr_from 5 line)
           else bad_file_entry).
Proof.
  intros st Hpre Hl. rewrite while_getline_app.
  destruct (while_getline_ok pre st Hpre) as (st1 & -> & _).
  cbn [while_getline].
  destruct (loop_body_cases line st1) as [(st2 & _ & Hn & _)|[[Hb E]|(Hb & _ & E)]].
  - congruence.
  - now rewrite E, Hb.
  - now rewrite E, Hb.
Qed.

(** *** Last occurrence wins *)

Lemma apply_file_line_NoDup m line :
  NoDup (keys m) -> NoDup (keys (apply_file_line m line)).
Proof.
  unfold apply_file_line. destruct (file_entry line); [apply assign_NoDup | auto].
Qed.

Lemma fold_apply_NoDup lines : forall m,
  NoDup (keys m) -> NoDup (keys (fold_left apply_file_line lines m)).
Proof.
  induction lines as [|l lines IH]; intros m H; [assumption|].
  cbn [fold_left]. now apply IH, apply_file_line_NoDup.
Qed.

Lemma lookup_fold_other p lines : forall m,
  (forall l e, In l lines -> file_entry l = Some e -> fst e <> p) ->
  lookup p (fold_left apply_file_line lines m) = lookup p m.
Proof.
  induction lines as [|l lines IH]; intros m H; [reflexivity|].
  cbn [fold_left]. rewrite IH by (intros; eapply H; [right|]; eassumption).
  unfold apply_file_line. destruct (file_entry l) as [e|] eqn:E; [|reflexivity].
  apply lookup_assign_ne. eapply H; [now left|exact E].
Qed.

Lemma lookup_fold_last p v pre line post m :
  file_entry line = Some (p, v) ->
  (forall l e, In l post -> file_entry l = Some e -> fst e <> p) ->
  lookup p (fold_left apply_file_line (pre ++ line :: post) m) = Some v.
Proof.
  intros E H. rewrite fold_left_app. cbn [fold_left].
  rewrite lookup_fold_other by assumption.
  unfold apply_file_line at 1. rewrite E. apply lookup_assign_eq.
Qed.

End LoopFacts.

(** * The claims of the design document *)

Import StdString Hashing Commit Reference Lines WF Hex.
Import StringFacts HashingFacts OrderFacts SortFacts MapFacts CodecFacts
       RoundTrip LoopFacts.

(** Claim C5. The fingerprint is a function of the bytes alone: equal byte
    sequences get equal identifiers. It is the 32-bit FNV-1a accumulator of
    the reference algorithm (offset basis 2166136261, prime 16777619, each
    byte XORed in and the result multiplied, modulo [2^32]) rendered as its
    eight hexadecimal digits, most significant first: exactly eight
    characters, zero-padded, all of them among [0-9a-f]. *)
Theorem fingerprint_is_fnv1a_32 (b1 b2 : string) :
  b1 = b2 ->
  Hashing.calculateHash b1 = Hashing.calculateHash b2
  /\ Hashing.calculateHash b1 = hex8 (fnv1a_32 (bytes_of b1))
  /\ String.length (Hashing.calculateHash b1) = 8
  /\ forallb is_lower_hex (list_ascii_of_string (Hashing.calculateHash b1)) = true.
Proof.
  intros <-. split; [reflexivity|]. split; [|split].
  - rewrite calculateHash_fixed, hex_fixed_hex8. unfold fnv1a_32.
    now rewrite <- fnv_loop_fold.
  - rewrite calculateHash_fixed. apply length_hex_fixed.
  - apply calculateHash_lower.
Qed.

(** The statement of C5 at the one-byte input [a]. *)
Lemma fingerprint_is_fnv1a_32_witness :
  Hashing.calculateHash "a" = Hashing.calculateHash "a"
  /\ Hashing.calculateHash "a" = hex8 (fnv1a_32 (bytes_of "a"))
  /\ String.length (Hashing.calculateHash "a") = 8
  /\ forallb is_lower_hex (list_ascii_of_string (Hashing.calculateHash "a")) = true.
Proof. apply (fingerprint_is_fnv1a_32 "a" "a"). reflexivity. Defined.

Example fingerprint_empty : Hashing.calculateHash "" = "811c9dc5".
Proof. reflexivity. Qed.

Example fingerprint_foobar : Hashing.calculateHash "foobar" = "bf9cf968".
Proof. reflexivity. Qed.

(** Claim C2. The commit built from the message [init], no parent, the
    single entry [a.txt -> deadbeef] and the clock reading
    [2024-01-01T00:00:00] fingerprints exactly the literal text of the design
    document; its identifier is the FNV-1a-32 fingerprint of that text, the
    eight digits [45a12172]. *)
Theorem init_commit_identifier :
  let literal :=
    "commit" ++ NL ++ "message:init" ++ NL ++ "timestamp:2024-01-01T00:00:00" ++ NL
    ++ "tree:" ++ NL ++ "  a.txt deadbeef" ++ NL in
  let c := new_CommitNode "init" [] [("a.txt", "deadbeef")] "2024-01-01T00:00:00" in
  contentToHash c = literal
  /\ getHash c = Hashing.calculateHash literal
  /\ getHash c = hex8 (fnv1a_32 (bytes_of literal))
  /\ getHash c = "45a12172".
Proof. cbv zeta. repeat split; vm_compute; reflexivity. Qed.

(** Claim C1 as stated fails. The record below is well formed, yet decoding
    the text that is fingerprinted gives back an empty table (and an empty
    identifier): that text is written in a grammar of its own ([commit],
    [tree:], entries indented by two spaces), which the decoder skips; it is
    not the stored form without its [hash:] line. *)
Lemma hash_input_decodes_to_empty_snapshot :
  let r := new_CommitNode "init" [] [("a.txt", "deadbeef")] "2024-01-01T00:00:00" in
  claimed_well_formed r = true
  /\ well_formed r = true
  /\ deserialize (contentToHash r)
     = Ok (mkCommitNode "" [] "init" "2024-01-01T00:00:00" [])
  /\ ~ Permutation [] (fileBlobs r).
Proof.
  cbv zeta. repeat split; try (vm_compute; reflexivity).
  intros H. apply Permutation_nil in H. discriminate.
Qed.

(** Claim C1, amended. For a well-formed record (no line feed in the
    identifier, the message, the timestamp, the parents, the paths and the
    blob identifiers; no space in a path; paths pairwise distinct), decoding
    the stored form gives back the identifier, the message, the timestamp, the
    parents in order and a table with the same entries; decoding the text that
    is fingerprinted gives back the message, the timestamp and the parents in
    order, and an empty table. *)
Theorem decode_of_both_encodings (c : CommitNode) :
  well_formed c = true -> distinct_keys (fileBlobs c) ->
  (exists r, deserialize (serialize c) = Ok r
     /\ hash r = hash c /\ message r = message c /\ timestamp r = timestamp c
     /\ parentHashes r = parentHashes c
     /\ Permutation (fileBlobs r) (fileBlobs c))
  /\ (exists r, deserialize (contentToHash c) = Ok r
        /\ message r = message c /\ timestamp r = timestamp c
        /\ parentHashes r = parentHashes c
        /\ fileBlobs r = []).
Proof.
  intros Hwf Hnd. split.
  - eexists. split; [now apply deserialize_serialize|].
    cbn [hash message timestamp parentHashes fileBlobs].
    repeat split. symmetry. apply std_sort_perm.
  - eexists. split; [apply deserialize_contentToHash|now repeat split].
    unfold well_formed in Hwf. now apply andb_true_iff in Hwf as [_ Hwf].
Qed.

(** The amended C1 at a record with one parent and two entries. *)
Lemma decode_of_both_encodings_witness :
  let c := new_CommitNode "init" ["0a1b2c3d"]
             [("b.txt", "deadbeef"); ("a.txt", "cafebabe")] "2024-01-01T00:00:00" in
  (exists r, deserialize (serialize c) = Ok r
     /\ hash r = hash c /\ message r = message c /\ timestamp r = timestamp c
     /\ parentHashes r = parentHashes c
     /\ Permutation (fileBlobs r) (fileBlobs c))
  /\ (exists r, deserialize (contentToHash c) = Ok r
        /\ message r = message c /\ timestamp r = timestamp c
        /\ parentHashes r = parentHashes c
        /\ fileBlobs r = []).
Proof.
  apply decode_of_both_encodings.
  - vm_compute. reflexivity.
  - repeat constructor; simpl; intuition discriminate.
Defined.

(** Claim C3 as stated fails on its second part. The constructor accepts a
    message of two lines; the decoder reads back its first line only, and the
    fingerprint recomputed from the decoded record is not the identifier of
    the [hash:] line. *)
Lemma multi_line_message_breaks_recomputation :
  let r := new_CommitNode ("a" ++ NL ++ "b") [] [] "2024-01-01T00:00:00" in
  getHash r = "e3c3df32"
  /\ deserialize (serialize r)
     = Ok (mkCommitNode "e3c3df32" [] "a" "2024-01-01T00:00:00" [])
  /\ Commit.calculateHash (mkCommitNode "e3c3df32" [] "a" "2024-01-01T00:00:00" [])
     = "23f29a96".
Proof. cbv zeta. repeat split; vm_compute; reflexivity. Qed.

(** Claim C3, amended. The identifier of every record that the constructor
    builds is the fingerprint of its hash-input text. When moreover the
    message, the clock reading, the parents, the paths and the blob
    identifiers hold no line feed, no path holds a space and the paths are
    pairwise distinct, decoding the stored form succeeds, reads back the
    identifier of the [hash:] line, and the fingerprint recomputed from the
    decoded record is that identifier. *)
Theorem identifier_is_fingerprint (msg : string) (parents : list string)
    (blobs : unordered_map) (now : string) :
  let r := new_CommitNode msg parents blobs now in
  getHash r = Hashing.calculateHash (contentToHash r)
  /\ (well_formed_fields r = true -> distinct_keys blobs ->
      exists r', deserialize (serialize r) = Ok r'
        /\ getHash r' = getHash r
        /\ Hashing.calculateHash (contentToHash r') = getHash r').
Proof.
  cbv zeta. split; [reflexivity|]. intros Hwf Hnd.
  eexists. split.
  - apply deserialize_serialize; [|exact Hnd].
    unfold well_formed. rewrite Hwf, andb_true_r.
    apply calculateHash_newline_free.
  - split; [reflexivity|]. cbn [getHash hash new_CommitNode].
    unfold Commit.calculateHash. f_equal.
    apply contentToHash_ext; try reflexivity.
    cbn [fileBlobs]. now apply std_sort_idem.
Qed.

(** The amended C3 at a record with one parent and two entries. *)
Lemma identifier_is_fingerprint_witness :
  let r := new_CommitNode "init" ["0a1b2c3d"]
             [("b.txt", "deadbeef"); ("a.txt", "cafebabe")] "2024-01-01T00:00:00" in
  getHash r = Hashing.calculateHash (contentToHash r)
  /\ exists r', deserialize (serialize r) = Ok r'
       /\ getHash r' = getHash r
       /\ Hashing.calculateHash (contentToHash r') = getHash r'.
Proof.
  cbv zeta.
  destruct (identifier_is_fingerprint "init" ["0a1b2c3d"]
              [("b.txt", "deadbeef"); ("a.txt", "cafebabe")] "2024-01-01T00:00:00")
    as [H1 H2].
  split; [exact H1|]. apply H2.
  - vm_compute. reflexivity.
  - repeat constructor; simpl; intuition discriminate.
Defined.

(** Claim C4. Take entries with pairwise distinct paths, insert them into a
    table in one order or in another, and let the tables be iterated in any
    order at all: the two commits built from them (same message, parents and
    clock reading) have the same hash-input text, the same stored form and the
    same identifier. The reason is in the last part: both texts are written
    out in full, and what they hold after the parents is one line for each
    inserted entry, each entry once, in strictly ascending order of path
    ([tree:] and two-space lines in the text that is fingerprinted, [file:]
    lines in the stored form); the identifier is the fingerprint of the
    former. *)
Theorem encoding_independent_of_insertion_order
    (msg : string) (parents : list string) (now : string)
    (es1 es2 : list entry) (fb1 fb2 : unordered_map) :
  distinct_keys es1 -> Permutation es1 es2 ->
  Permutation fb1 (inserted es1) -> Permutation fb2 (inserted es2) ->
  let c1 := new_CommitNode msg parents fb1 now in
  let c2 := new_CommitNode msg parents fb2 now in
  contentToHash c1 = contentToHash c2
  /\ serialize c1 = serialize c2
  /\ getHash c1 = getHash c2
  /\ StronglySorted (fun a b => String.ltb (fst a) (fst b) = true)
       (std_sort (fileBlobs c1))
  /\ exists sorted : list entry,
       Permutation sorted es1
       /\ StronglySorted (fun a b => String.ltb (fst a) (fst b) = true) sorted
       /\ contentToHash c1
          = "commit" ++ NL ++ "message:" ++ msg ++ NL
            ++ "timestamp:" ++ now ++ NL
            ++ unlines (map parent_line parents)
            ++ "tree:" ++ NL
            ++ unlines (map tree_line sorted)
       /\ serialize c1
          = "type:commit" ++ NL ++ "hash:" ++ getHash c1 ++ NL
            ++ "message:" ++ msg ++ NL ++ "timestamp:" ++ now ++ NL
            ++ unlines (map parent_line parents)
            ++ unlines (map file_line sorted)
       /\ getHash c1 = Hashing.calculateHash (contentToHash c1).
Proof.
  intros Hnd Hp H1 H2. cbv zeta.
  assert (Hnd2 : distinct_keys es2)
    by (eapply Permutation_NoDup; [apply keys_perm; exact Hp|exact Hnd]).
  rewrite inserted_distinct in H1, H2 by assumption.
  assert (Hfb : Permutation fb1 fb2) by (now rewrite H1, H2).
  assert (Hnd1 : distinct_keys fb1).
  { eapply Permutation_NoDup; [apply keys_perm; symmetry; exact H1|exact Hnd]. }
  assert (Hs : std_sort fb1 = std_sort fb2) by now apply std_sort_permuted.
  assert (Hc : contentToHash (mkCommitNode "" parents msg now fb1)
               = contentToHash (mkCommitNode "" parents msg now fb2))
    by now apply contentToHash_ext.
  assert (Hh : getHash (new_CommitNode msg parents fb1 now)
               = getHash (new_CommitNode msg parents fb2 now)).
  { cbn [getHash hash new_CommitNode]. unfold Commit.calculateHash. now rewrite Hc. }
  split; [now apply contentToHash_ext|]. split; [|split; [exact Hh|split]].
  - now apply serialize_ext.
  - now apply std_sort_sorted.
  - exists (std_sort fb1). split; [|split; [|split; [|split]]].
    + now rewrite <- std_sort_perm.
    + now apply std_sort_sorted.
    + rewrite contentToHash_unlines. unfold hash_input_lines.
      cbn [message timestamp parentHashes fileBlobs new_CommitNode].
      rewrite !unlines_app. cbn [unlines]. rewrite !append_assoc. reflexivity.
    + rewrite serialize_unlines. unfold stored_lines.
      cbn [getHash hash message timestamp parentHashes fileBlobs new_CommitNode].
      rewrite !unlines_app. cbn [unlines]. rewrite !append_assoc. reflexivity.
    + reflexivity.
Qed.

(** C4 at three entries inserted in two orders, the second table being
    iterated backwards. *)
Lemma encoding_independent_of_insertion_order_witness :
  let es1 := [("b.txt", "deadbeef"); ("a.txt", "cafebabe"); ("c/d.txt", "00000001")] in
  let es2 := [("c/d.txt", "00000001"); ("b.txt", "deadbeef"); ("a.txt", "cafebabe")] in
  let c1 := new_CommitNode "init" [] (inserted es1) "2024-01-01T00:00:00" in
  let c2 := new_CommitNode "init" [] (rev (inserted es2)) "2024-01-01T00:00:00" in
  contentToHash c1 = contentToHash c2
  /\ serialize c1 = serialize c2
  /\ getHash c1 = getHash c2
  /\ StronglySorted (fun a b => String.ltb (fst a) (fst b) = true)
       (std_sort (fileBlobs c1))
  /\ exists sorted : list entry,
       Permutation sorted es1
       /\ StronglySorted (fun a b => String.ltb (fst a) (fst b) = true) sorted
       /\ contentToHash c1
          = "commit" ++ NL ++ "message:" ++ "init" ++ NL
            ++ "timestamp:" ++ "2024-01-01T00:00:00" ++ NL
            ++ unlines (map parent_line [])
            ++ "tree:" ++ NL
            ++ unlines (map tree_line sorted)
       /\ serialize c1
          = "type:commit" ++ NL ++ "hash:" ++ getHash c1 ++ NL
            ++ "message:" ++ "init" ++ NL
            ++ "timestamp:" ++ "2024-01-01T00:00:00" ++ NL
            ++ unlines (map parent_line [])
            ++ unlines (map file_line sorted)
       /\ getHash c1 = Hashing.calculateHash (contentToHash c1).
Proof.
  cbv zeta.
  apply (encoding_independent_of_insertion_order "init" [] "2024-01-01T00:00:00"
           [("b.txt", "deadbeef"); ("a.txt", "cafebabe"); ("c/d.txt", "00000001")]
           [("c/d.txt", "00000001"); ("b.txt", "deadbeef"); ("a.txt", "cafebabe")]).
  - repeat constructor; simpl; intuition discriminate.
  - exact (Permutation_sym
             (Permutation_cons_append [("b.txt", "deadbeef"); ("a.txt", "cafebabe")]
                                      ("c/d.txt", "00000001"))).
  - reflexivity.
  - apply Permutation_rev.
Defined.

(** Claim C6 fails on the code. A file that exists, is regular and opens,
    whose size is 5 while the stream delivers nothing, is reported as read
    ([true]) with an empty content and a warning on [std::cerr]; a file of
    size 64 of which 5 bytes arrive is reported as read without any message.
    The three failures that the function does detect return [false]. *)
Theorem short_read_is_reported_as_success :
  let f := FileUtils.mkFile true true true "" 5 in
  FileUtils.readFromFile f "objects/45a12172"
  = FileUtils.mkOutcome true ""
      ["WARNING: readFromFile: File 'objects/45a12172' was opened but read as empty despite having content."]
  /\ FileUtils.readFromFile (FileUtils.mkFile true true true "type:" 64) "objects/45a12172"
     = FileUtils.mkOutcome true "type:" [].
Proof. split; reflexivity. Qed.

Lemma readFromFile_opened (f : FileUtils.file) (filename : string) :
  FileUtils.exists_ f = true -> FileUtils.is_regular_file f = true ->
  FileUtils.is_open f = true ->
  FileUtils.returned (FileUtils.readFromFile f filename) = true
  /\ FileUtils.content (FileUtils.readFromFile f filename) = FileUtils.rdbuf f.
Proof.
  unfold FileUtils.readFromFile. intros -> -> ->. cbn [negb].
  now destruct ((String.length (FileUtils.rdbuf f) =? 0)%nat
                && (0 <? FileUtils.file_size f)%nat).
Qed.

(** Claim C7 as stated fails. Lines are handled first to last and the first
    failure is the one thrown: in front of a [type:] line that is not
    [type:commit], the [file:] line without a space is never reached and the
    error is the one about the type. *)
Lemma type_error_comes_first :
  let content := "type:blob" ++ NL ++ "file:nospace" ++ NL in
  getlines content = ["type:blob"; "file:nospace"]
  /\ is_bad_file "file:nospace" = true
  /\ deserialize content = Throw (bad_type "blob")
  /\ bad_type "blob" <> bad_file_entry.
Proof. cbv zeta. repeat split; try reflexivity. discriminate. Qed.

(** Claim C7, amended. An input with a [file:] line that has no space after
    the prefix is never decoded into a record: [deserialize] throws. What it
    throws is decided by the first line of the input that throws, which is
    that line or one before it: the invalid-file-entry error if it is a
    [file:] line without a space, the type error if it is a [type:] line with
    a value other than [commit]. In particular it is the invalid-file-entry
    error whenever no line before the given one is such a [type:] line. *)
Theorem file_line_without_space_fails (content : string)
    (pre : list string) (line : string) (post : list string) :
  getlines content = (pre ++ line :: post)%list ->
  is_bad_file line = true ->
  (exists e, deserialize content = Throw e)
  /\ (forallb (fun l => negb (is_bad_type l)) pre = true ->
      deserialize content = Throw bad_file_entry)
  /\ (exists before first after,
        getlines content = (before ++ first :: after)%list
        /\ List.length before <= List.length pre
        /\ forallb (fun l => negb (throws l)) before = true
        /\ throws first = true
        /\ deserialize content
           = Throw (if is_bad_type first then bad_type (substr_from 5 first)
                    else bad_file_entry)).
Proof.
  intros Hl Hb.
  assert (Ht : throws line = true) by (unfold throws; now rewrite Hb, orb_true_r).
  unfold deserialize. rewrite Hl. split; [|split].
  - destruct (while_getline_throws pre line post initial_locals Ht) as [e He].
    exists e. now rewrite He.
  - intros Hpre. now rewrite while_getline_bad_file.
  - destruct (first_throw_split pre line post Ht)
      as (before & first & after & E & Hpre & Hfirst & Hlen).
    exists before, first, after. rewrite E.
    repeat split; try assumption.
    now rewrite while_getline_first_throw.
Qed.

(** The amended C7 at an input whose third line is [file:nospace]. *)
Lemma file_line_without_space_fails_witness :
  let content := "type:commit" ++ NL ++ "message:m" ++ NL ++ "file:nospace" ++ NL
                 ++ "file:a 1" ++ NL in
  (exists e, deserialize content = Throw e)
  /\ deserialize content = Throw bad_file_entry.
Proof.
  cbv zeta.
  destruct (file_line_without_space_fails
              ("type:commit" ++ NL ++ "message:m" ++ NL ++ "file:nospace" ++ NL
               ++ "file:a 1" ++ NL)
              ["type:commit"; "message:m"] "file:nospace" ["file:a 1"])
    as (H1 & H2 & _); [reflexivity|reflexivity|].
  split; [exact H1|]. apply H2. reflexivity.
Defined.

Lemma contentToHash_timestamp (c : CommitNode) :
  contentToHash c
  = ("commit" ++ NL ++ "message:" ++ message c ++ NL ++ "timestamp:")
    ++ timestamp c
    ++ NL ++ unlines (map parent_line (parentHashes c) ++ ["tree:"]
                      ++ map tree_line (std_sort (fileBlobs c)))%list.
Proof.
  rewrite contentToHash_unlines. unfold hash_input_lines.
  cbn [app unlines]. now rewrite !append_assoc.
Qed.

(** Claim C8 as stated fails: identifiers have 32 bits and two clock
    readings can collide. *)
Lemma timestamp_collision :
  let c1 := new_CommitNode "init" [] [("a.txt", "deadbeef")] "2024-01-01T18:08:59" in
  let c2 := new_CommitNode "init" [] [("a.txt", "deadbeef")] "2024-01-02T15:51:44" in
  getTimestamp c1 <> getTimestamp c2
  /\ getMessage c1 = getMessage c2
  /\ getParentHashes c1 = getParentHashes c2
  /\ getFileBlobs c1 = getFileBlobs c2
  /\ getHash c1 = "cb6d5ecd" /\ getHash c2 = "cb6d5ecd".
Proof. cbv zeta. repeat split; try (vm_compute; reflexivity). discriminate. Qed.

(** Claim C8, amended. Two commits that differ in their timestamps only
    have different hash-input texts; their identifiers are equal exactly when
    the 32-bit accumulators of the two texts are; and they do differ when the
    two timestamps differ in one character only (same length, same characters
    elsewhere), each step of the loop being a bijection of the accumulator. *)
Theorem different_timestamps (msg : string) (parents : list string)
    (blobs : unordered_map) (t1 t2 : string) :
  t1 <> t2 ->
  let c1 := new_CommitNode msg parents blobs t1 in
  let c2 := new_CommitNode msg parents blobs t2 in
  contentToHash c1 <> contentToHash c2
  /\ (getHash c1 = getHash c2 <->
      fnv_loop (contentToHash c1) FNV_OFFSET_BASIS
      = fnv_loop (contentToHash c2) FNV_OFFSET_BASIS)
  /\ (forall p a b s, t1 = p ++ String a s -> t2 = p ++ String b s ->
      getHash c1 <> getHash c2).
Proof.
  intros Hne. cbv zeta.
  assert (Hc : forall t, contentToHash (new_CommitNode msg parents blobs t)
                         = contentToHash (mkCommitNode "" parents msg t blobs))
    by reflexivity.
  assert (Hh : forall t, getHash (new_CommitNode msg parents blobs t)
                 = Hashing.calculateHash (contentToHash (mkCommitNode "" parents msg t blobs)))
    by reflexivity.
  rewrite !Hc, !Hh, !contentToHash_timestamp.
  cbn [message timestamp parentHashes fileBlobs].
  set (PRE := "commit" ++ NL ++ "message:" ++ msg ++ NL ++ "timestamp:").
  set (SUF := NL ++ unlines _).
  split; [|split].
  - intros H. apply append_inv_head in H. now apply append_inv_tail in H.
  - apply calculateHash_inj.
  - intros p a b s -> -> H. apply calculateHash_inj in H.
    rewrite <- !append_assoc in H. rewrite !(append_assoc PRE) in H.
    rewrite !(append_assoc p) in H. rewrite <- !(append_assoc PRE p) in H.
    rewrite !(fnv_loop_app (PRE ++ p)) in H. cbn [append fnv_loop] in H.
    apply fnv_loop_inj in H; try apply fnv_step_range.
    apply fnv_step_inj_char in H; [now subst|].
    apply fnv_loop_range, offset_basis_range.
Qed.

(** The amended C8 at two clock readings one second apart. *)
Lemma different_timestamps_witness :
  let c1 := new_CommitNode "init" [] [("a.txt", "deadbeef")] "2024-01-01T00:00:00" in
  let c2 := new_CommitNode "init" [] [("a.txt", "deadbeef")] "2024-01-01T00:00:01" in
  contentToHash c1 <> contentToHash c2 /\ getHash c1 <> getHash c2.
Proof.
  cbv zeta.
  destruct (different_timestamps "init" [] [("a.txt", "deadbeef")]
              "2024-01-01T00:00:00" "2024-01-01T00:00:01") as (H1 & _ & H3);
    [discriminate|].
  split; [exact H1|].
  apply (H3 "2024-01-01T00:00:0" "0"%char "1"%char ""); reflexivity.
Defined.






(** Claim C10 as stated fails on its first part: two [file:] lines for the
    same path do not make an input decodable, as here where a third [file:]
    line has no space. *)
Lemma duplicate_paths_do_not_prevent_failure :
  let content := "file:a 1" ++ NL ++ "file:a 2" ++ NL ++ "file:b" ++ NL in
  getlines content = ["file:a 1"; "file:a 2"; "file:b"]
  /\ file_entry "file:a 1" = Some ("a", "1")
  /\ file_entry "file:a 2" = Some ("a", "2")
  /\ deserialize content = Throw bad_file_entry.
Proof. cbv zeta. repeat split; reflexivity. Qed.

(** Claim C10, amended. Let an input have a [file:] line for path [p] with
    blob identifier [v], no [file:] line after it being for [p] (so that
    earlier lines for [p] are duplicates). If no line of the input makes the
    decoder throw (a [type:] line other than [type:commit], a [file:] line
    without a space), [deserialize] returns a record; and whenever it returns
    a record, [p] is bound to [v] in its table, whose paths are pairwise
    distinct. *)
Theorem duplicate_paths_last_wins (content : string)
    (pre : list string) (line : string) (post : list string) (p v : string) :
  getlines content = (pre ++ line :: post)%list ->
  file_entry line = Some (p, v) ->
  (forall l e, In l post -> file_entry l = Some e -> fst e <> p) ->
  (forallb (fun l => negb (throws l)) (getlines content) = true ->
   exists r, deserialize content = Ok r)
  /\ (forall r, deserialize content = Ok r ->
      lookup p (fileBlobs r) = Some v /\ NoDup (keys (fileBlobs r))).
Proof.
  intros Hl He Hpost. unfold deserialize. split.
  - intros Hok.
    destruct (while_getline_ok _ initial_locals Hok) as (st & E & _).
    rewrite E. eauto.
  - intros r Hr.
    destruct (while_getline (getlines content) initial_locals) as [st|e] eqn:E;
      [|discriminate].
    injection Hr as <-. cbn [fileBlobs].
    rewrite (while_getline_blobs _ _ _ E), Hl. split.
    + now apply lookup_fold_last.
    + apply fold_apply_NoDup. constructor.
Qed.

(** The amended C10 at an input with two [file:] lines for the path [a]. *)
Lemma duplicate_paths_last_wins_witness :
  let content := "type:commit" ++ NL ++ "file:a 1" ++ NL ++ "file:b 2" ++ NL
                 ++ "file:a 3" ++ NL ++ "file:c 4" ++ NL in
  (exists r, deserialize content = Ok r)
  /\ (forall r, deserialize content = Ok r ->
      lookup "a" (fileBlobs r) = Some "3" /\ NoDup (keys (fileBlobs r))).
Proof.
  cbv zeta.
  destruct (duplicate_paths_last_wins
              ("type:commit" ++ NL ++ "file:a 1" ++ NL ++ "file:b 2" ++ NL
               ++ "file:a 3" ++ NL ++ "file:c 4" ++ NL)
              ["type:commit"; "file:a 1"; "file:b 2"] "file:a 3" ["file:c 4"] "a" "3")
    as [H1 H2].
  - reflexivity.
  - reflexivity.
  - intros l e [<-|[]] H. injection H as <-. discriminate.
  - split; [apply H1; reflexivity|exact H2].
Defined.

(** * Further properties of the code *)

Import More CrLf.

Module FingerprintMore.
Import Hashing.
Local Open Scope Z_scope.

Lemma accumulator_range content :
  0 <= fnv_loop content FNV_OFFSET_BASIS < UINT_RANGE.
Proof. apply fnv_loop_range, offset_basis_range. Qed.

Lemma fnv_loop_substitution p t a b h :
  0 <= h < UINT_RANGE ->
  fnv_loop (p ++ String a t) h = fnv_loop (p ++ String b t) h -> a = b.
Proof.
  intros Hh H. rewrite !fnv_loop_app in H. cbn [fnv_loop] in H.
  apply fnv_loop_inj in H; try apply fnv_step_range.
  apply fnv_step_inj_char in H; [assumption|].
  now apply fnv_loop_range.
Qed.

Lemma calculateHash_substitution p t a b :
  a <> b ->
  Hashing.calculateHash (p ++ String a t) <> Hashing.calculateHash (p ++ String b t).
Proof.
  intros Hne H. apply calculateHash_inj in H.
  apply fnv_loop_substitution in H; [contradiction|apply offset_basis_range].
Qed.

End FingerprintMore.
Import FingerprintMore.

(** Property X1. Changing one byte of a text, whatever stands before and after
    it, changes its fingerprint: every step of the loop is a bijection of the
    32-bit accumulator and two different bytes send it to two different
    values. *)
Theorem fingerprint_single_byte (p t : string) (a b : ascii) :
  a <> b ->
  Hashing.calculateHash (p ++ String a t) <> Hashing.calculateHash (p ++ String b t).
Proof. apply calculateHash_substitution. Qed.

Lemma fingerprint_single_byte_witness :
  Hashing.calculateHash ("tree " ++ String "a" " end")
  <> Hashing.calculateHash ("tree " ++ String "b" " end").
Proof. apply fingerprint_single_byte. discriminate. Defined.

(** Property X2. Two texts followed by the same suffix have the same
    fingerprint exactly when they have the same fingerprint without it: a
    collision survives any continuation, and no continuation creates one. *)
Theorem fingerprint_common_suffix (s1 s2 t : string) :
  Hashing.calculateHash (s1 ++ t) = Hashing.calculateHash (s2 ++ t)
  <-> Hashing.calculateHash s1 = Hashing.calculateHash s2.
Proof.
  rewrite !calculateHash_inj, !fnv_loop_app. split.
  - apply fnv_loop_inj; apply accumulator_range.
  - now intros ->.
Qed.

(** Property X3. Read as a hexadecimal number, the identifier is the value of
    the 32-bit accumulator at the end of the loop: the rendering loses
    nothing. *)
Theorem fingerprint_reads_back (content : string) :
  hex_val (Hashing.calculateHash content)
  = Hashing.fnv_loop content Hashing.FNV_OFFSET_BASIS
  /\ (0 <= hex_val (Hashing.calculateHash content) < 2 ^ 32)%Z.
Proof.
  assert (E : hex_val (Hashing.calculateHash content)
              = Hashing.fnv_loop content Hashing.FNV_OFFSET_BASIS).
  { rewrite calculateHash_fixed, hex_val_fixed by apply accumulator_range.
    apply Z.mod_small, accumulator_range. }
  split; [exact E|]. rewrite E. apply accumulator_range.
Qed.

Module DecoderFacts.

Lemma starts_with_two a b p line :
  starts_with (String a (String b p)) line = true ->
  exists rest, line = String a (String b rest).
Proof.
  destruct line as [|c [|d rest]]; cbn [starts_with]; intros H;
    try discriminate.
  - apply andb_true_iff in H as [_ H]. discriminate.
  - apply andb_true_iff in H as [Hc H]. apply andb_true_iff in H as [Hd _].
    apply Ascii.eqb_eq in Hc, Hd. subst. now exists rest.
Qed.

(** The effect of a line that does not throw on the scalar fields and on the
    parents. *)
Lemma loop_body_fields line st st' :
  loop_body line st = Ok st' ->
  hash (commit st')
  = (if starts_with "hash:" line then substr_from 5 line else hash (commit st))
  /\ message (commit st')
     = (if starts_with "message:" line then substr_from 8 line
        else message (commit st))
  /\ timestamp (commit st')
     = (if starts_with "timestamp:" line then substr_from 10 line
        else timestamp (commit st))
  /\ deserializedParentHashes st'
     = (deserializedParentHashes st
        ++ (if starts_with "parent:" line then [substr_from 7 line] else []))%list.
Proof.
  unfold loop_body.
  destruct (starts_with "type:" line) eqn:H1.
  { destruct (starts_with_two _ _ _ _ H1) as [rest ->].
    destruct (String.eqb _ _); [|discriminate]. intros [= <-].
    cbn [starts_with Ascii.eqb Bool.eqb andb]. now rewrite List.app_nil_r. }
  destruct (starts_with "hash:" line) eqn:H2.
  { destruct (starts_with_two _ _ _ _ H2) as [rest ->]. intros [= <-].
    cbn [starts_with Ascii.eqb Bool.eqb andb commit set_hash hash message timestamp
         deserializedParentHashes].
    now rewrite List.app_nil_r. }
  destruct (starts_with "message:" line) eqn:H3.
  { destruct (starts_with_two _ _ _ _ H3) as [rest ->]. intros [= <-].
    cbn [starts_with Ascii.eqb Bool.eqb andb commit set_message hash message
         timestamp deserializedParentHashes].
    now rewrite List.app_nil_r. }
  destruct (starts_with "timestamp:" line) eqn:H4.
  { destruct (starts_with_two _ _ _ _ H4) as [rest ->]. intros [= <-].
    cbn [starts_with Ascii.eqb Bool.eqb andb commit set_timestamp hash message
         timestamp deserializedParentHashes].
    now rewrite List.app_nil_r. }
  destruct (starts_with "parent:" line) eqn:H5.
  { intros [= <-]. now cbn [commit deserializedParentHashes]. }
  destruct (starts_with "file:" line) eqn:H6.
  { destruct (find space (substr_from 5 line)); [|discriminate]. intros [= <-].
    cbn [commit deserializedParentHashes]. now rewrite List.app_nil_r. }
  intros [= <-]. now rewrite List.app_nil_r.
Qed.

Lemma loop_body_ignored line st : ignored line = true -> loop_body line st = Ok st.
Proof.
  unfold ignored, loop_body. destruct (starts_with "type:" line).
  - now intros ->.
  - intros H. apply negb_true_iff in H. repeat (apply orb_false_iff in H as [H ?]).
    now rewrite H, H0, H1, H2, H3.
Qed.

Lemma while_getline_filter lines : forall st,
  while_getline (filter (fun l => negb (ignored l)) lines) st
  = while_getline lines st.
Proof.
  induction lines as [|l lines IH]; intros st; [reflexivity|].
  cbn [filter]. destruct (ignored l) eqn:E; cbn [negb].
  - rewrite (while_step l lines st st) by now apply loop_body_ignored. apply IH.
  - cbn [while_getline]. destruct (loop_body l st); [apply IH | reflexivity].
Qed.

Lemma while_getline_fields lines : forall st st',
  while_getline lines st = Ok st' ->
  hash (commit st')
  = match last_payload "hash:" lines with Some v => v | None => hash (commit st) end
  /\ message (commit st')
     = match last_payload "message:" lines with
       | Some v => v | None => message (commit st) end
  /\ timestamp (commit st')
     = match last_payload "timestamp:" lines with
       | Some v => v | None => timestamp (commit st) end
  /\ deserializedParentHashes st'
     = (deserializedParentHashes st ++ parent_payloads lines)%list.
Proof.
  induction lines as [|l lines IH]; intros st st' H.
  - injection H as <-. cbn. now rewrite List.app_nil_r.
  - cbn [while_getline] in H. destruct (loop_body l st) as [st1|e] eqn:E;
      [|discriminate].
    destruct (loop_body_fields _ _ _ E) as (Hh & Hm & Ht & Hp).
    destruct (IH _ _ H) as (Ih & Im & It & Ip).
    cbn [last_payload]. unfold parent_payloads in *. cbn [filter String.length].
    rewrite Ih, Im, It, Ip, Hh, Hm, Ht, Hp.
    repeat split.
    + now destruct (last_payload "hash:" lines), (starts_with "hash:" l).
    + now destruct (last_payload "message:" lines), (starts_with "message:" l).
    + now destruct (last_payload "timestamp:" lines), (starts_with "timestamp:" l).
    + destruct (starts_with "parent:" l); cbn [map];
        now rewrite <- List.app_assoc.
Qed.

Lemma while_getline_ok_iff lines st :
  (exists st', while_getline lines st = Ok st')
  <-> forallb (fun l => negb (throws l)) lines = true.
Proof.
  split.
  - revert st. induction lines as [|l lines IH]; intros st [st' H]; [reflexivity|].
    cbn [while_getline] in H. cbn [forallb].
    destruct (loop_body_cases l st) as [(st1 & E & Hn & _)|[[Hb E]|(_ & Hb & E)]];
      rewrite E in H; try discriminate.
    rewrite Hn. cbn [negb andb]. apply (IH st1). now exists st'.
  - intros H. destruct (while_getline_ok lines st H) as (st' & E & _). now exists st'.
Qed.


End DecoderFacts.
Import DecoderFacts.

(** Property X4. The decoder reads the lines it recognises and nothing
    else: two inputs with the same lines once [type:commit] lines and lines
    without a known prefix are left out decode alike (to the same record or
    to the same error); an input with no other line, the empty input among
    them, decodes to the default-constructed commit. A [type:commit] line is
    thus not required. *)
Theorem decoder_reads_recognised_lines_only (c1 c2 : string) :
  filter (fun l => negb (ignored l)) (getlines c1)
  = filter (fun l => negb (ignored l)) (getlines c2) ->
  deserialize c1 = deserialize c2
  /\ (filter (fun l => negb (ignored l)) (getlines c1) = [] ->
      deserialize c1 = Ok default_CommitNode).
Proof.
  intros H. unfold deserialize. split.
  - now rewrite <- (while_getline_filter (getlines c1)),
                <- (while_getline_filter (getlines c2)), H.
  - intros E. now rewrite <- (while_getline_filter (getlines c1)), E.
Qed.

Lemma decoder_reads_recognised_lines_only_witness :
  let c1 := "# stored by MiniGit" ++ NL ++ "type:commit" ++ NL ++ NL
            ++ "tree:" ++ NL ++ "  a.txt deadbeef" ++ NL in
  deserialize c1 = deserialize ""
  /\ deserialize c1 = Ok default_CommitNode.
Proof.
  cbv zeta.
  destruct (decoder_reads_recognised_lines_only
              ("# stored by MiniGit" ++ NL ++ "type:commit" ++ NL ++ NL
               ++ "tree:" ++ NL ++ "  a.txt deadbeef" ++ NL) "") as [H1 H2];
    [reflexivity|].
  split; [exact H1|apply H2; reflexivity].
Defined.

(** Property X5. [deserialize] returns a record exactly when no line of the
    input is a [type:] line with a value other than [commit] or a [file:]
    line without a space: nothing else makes it throw. *)
Theorem deserialize_succeeds_iff (content : string) :
  (exists r, deserialize content = Ok r)
  <-> forallb (fun l => negb (throws l)) (getlines content) = true.
Proof.
  rewrite <- (while_getline_ok_iff (getlines content) initial_locals).
  unfold deserialize. split.
  - intros [r H]. destruct (while_getline _ _) as [st|e]; [now exists st|discriminate].
  - intros [st H]. rewrite H. eauto.
Qed.

(** Property X6. What [deserialize] throws is decided by the first line that
    throws. For a [type:] line, [what()] reads [Deserialization error:
    Expected type:commit, got ] followed by the value found, as far as its
    first NUL ([what()] is a C string); for a [file:] line without a space it
    reads [Deserialization error: Invalid file entry format in commit.] *)
Theorem first_failing_line_decides (content : string)
    (pre : list string) (line : string) (post : list string) :
  getlines content = (pre ++ line :: post)%list ->
  forallb (fun l => negb (throws l)) pre = true ->
  throws line = true ->
  deserialize content
  = Throw (runtime_error
             (if is_bad_type line
              then c_str ("Deserialization error: Expected type:commit, got "
                          ++ substr_from 5 line)
              else "Deserialization error: Invalid file entry format in commit.")).
Proof.
  intros Hl Hpre Hline. unfold deserialize.
  rewrite Hl, while_getline_first_throw by assumption.
  now destruct (is_bad_type line).
Qed.

(** Property X6 at an input whose third line is a [type:] line with a NUL in
    its value. *)
Lemma first_failing_line_decides_witness :
  deserialize ("type:commit" ++ NL ++ "message:m" ++ NL
               ++ "type:tr" ++ String Ascii.zero "ee" ++ NL
               ++ "file:nospace" ++ NL)
  = Throw (runtime_error "Deserialization error: Expected type:commit, got tr").
Proof.
  apply (first_failing_line_decides _ ["type:commit"; "message:m"]
           (String.append "type:tr" (String Ascii.zero "ee")) ["file:nospace"]);
    reflexivity.
Defined.

(** Property X7. In a decoded record, the identifier, the message and the
    timestamp are what follows the prefix in the last [hash:], [message:] and
    [timestamp:] line of the input (the empty string when there is none), and
    the parents are what follows [parent:] in each such line, in order,
    duplicates kept. *)
Theorem decoded_fields_are_last_lines (content : string) (r : CommitNode) :
  deserialize content = Ok r ->
  getHash r = or_empty (last_payload "hash:" (getlines content))
  /\ getMessage r = or_empty (last_payload "message:" (getlines content))
  /\ getTimestamp r = or_empty (last_payload "timestamp:" (getlines content))
  /\ getParentHashes r = parent_payloads (getlines content).
Proof.
  unfold deserialize. destruct (while_getline _ _) as [st|e] eqn:E; [|discriminate].
  intros [= <-]. destruct (while_getline_fields _ _ _ E) as (Hh & Hm & Ht & Hp).
  cbn [getHash getMessage getTimestamp getParentHashes hash message timestamp
       parentHashes].
  rewrite Hh, Hm, Ht, Hp. unfold or_empty. now repeat split.
Qed.

Lemma decoded_fields_are_last_lines_witness :
  let content := "message:first" ++ NL ++ "parent:p1" ++ NL ++ "hash:00000001" ++ NL
                 ++ "message:second" ++ NL ++ "parent:p2" ++ NL ++ "parent:p1" ++ NL in
  let r := mkCommitNode "00000001" ["p1"; "p2"; "p1"] "second" "" [] in
  getHash r = "00000001" /\ getMessage r = "second" /\ getTimestamp r = ""
  /\ getParentHashes r = ["p1"; "p2"; "p1"].
Proof.
  cbv zeta.
  apply (decoded_fields_are_last_lines
           ("message:first" ++ NL ++ "parent:p1" ++ NL ++ "hash:00000001" ++ NL
            ++ "message:second" ++ NL ++ "parent:p2" ++ NL ++ "parent:p1" ++ NL)).
  reflexivity.
Defined.

Module RoundTripMore.

Lemma find_app_some c k r i : find c k = Some i -> find c (k ++ r) = Some i.
Proof.
  revert i. induction k as [|a k IH]; intros i H; cbn [find append] in *;
    [discriminate|].
  destruct (Ascii.eqb a c); [assumption|].
  destruct (find c k) as [j|]; [|discriminate].
  now rewrite (IH j eq_refl).
Qed.

Lemma substr_to_app_le i : forall k r,
  i <= String.length k -> substr_to i (k ++ r) = substr_to i k.
Proof.
  induction i as [|i IH]; intros [|a k] r H; cbn in *; try reflexivity; try lia.
  f_equal. apply IH. lia.
Qed.

Lemma substr_from_app_le i : forall k r,
  i <= String.length k -> substr_from i (k ++ r) = substr_from i k ++ r.
Proof.
  induction i as [|i IH]; intros [|a k] r H; cbn in *; try reflexivity; try lia.
  apply IH. lia.
Qed.

Lemma file_entry_resplit e : file_entry (file_line e) = Some (resplit e).
Proof.
  destruct e as [k v]. unfold file_entry, file_line, resplit. cbn [fst snd].
  rewrite starts_with_app.
  assert (E5 : substr_from 5 ("file:" ++ k ++ " " ++ v) = k ++ String space v)
    by now destruct k.
  rewrite E5. destruct (find space k) as [i|] eqn:E.
  - pose proof (find_lt_length _ _ _ E) as Hi.
    rewrite (find_app_some _ _ _ _ E).
    rewrite substr_to_app_le, substr_from_app_le by lia. reflexivity.
  - apply find_none in E. rewrite find_app by assumption.
    rewrite substr_to_app.
    replace (String.length k + 1) with (String.length (k ++ String space "")).
    + change (k ++ String space v) with (k ++ String space ("" ++ v)).
      rewrite <- (append_assoc k (String space "") v) at 1.
      now rewrite substr_from_app.
    + rewrite length_append. reflexivity.
Qed.

Lemma while_files_resplit es : forall more c parents blobs,
  while_getline (map file_line es ++ more) (mkLocals c parents blobs) =
  while_getline more
    (mkLocals c parents
       (fold_left (fun m e => assign (fst e) (snd e) m) (map resplit es) blobs)).
Proof.
  induction es as [|e es IH]; intros more c parents blobs; [reflexivity|].
  cbn [map app]. erewrite while_step.
  - rewrite IH. reflexivity.
  - rewrite loop_body_file_entry by apply starts_with_app.
    now rewrite file_entry_resplit.
Qed.

Lemma newline_free_file_line_any e :
  newline_free_entry e = true -> newline_free (file_line e) = true.
Proof.
  unfold newline_free_entry, file_line. intros H.
  apply andb_true_iff in H as [Hk Hv].
  now rewrite !newline_free_app, Hk, Hv.
Qed.

Lemma stored_lines_newline_free_any c :
  newline_free_record c = true -> forallb newline_free (stored_lines c) = true.
Proof.
  unfold newline_free_record, stored_lines. intros H.
  repeat match goal with
         | H : _ && _ = true |- _ => apply andb_true_iff in H; destruct H
         end.
  rewrite !forallb_app. cbn [forallb]. rewrite !forallb_map.
  repeat (apply andb_true_iff; split); try assumption; try reflexivity.
  eapply forallb_weaken; [|eapply forallb_perm; [apply std_sort_perm|eassumption]].
  apply newline_free_file_line_any.
Qed.

Lemma deserialize_serialize_any c :
  newline_free_record c = true ->
  deserialize (serialize c) =
  Ok (mkCommitNode (hash c) (parentHashes c) (message c) (timestamp c)
        (inserted (map resplit (std_sort (fileBlobs c))))).
Proof.
  intros Hnl. unfold deserialize.
  rewrite serialize_unlines, getlines_unlines
    by now apply stored_lines_newline_free_any.
  unfold stored_lines, initial_locals. cbn [app].
  rewrite (while_step "type:commit" _ _ _ eq_refl).
  erewrite while_step by apply loop_body_hash.
  erewrite while_step by apply loop_body_message.
  erewrite while_step by apply loop_body_timestamp.
  cbn [commit deserializedParentHashes deserializedFileBlobs
       set_hash set_message set_timestamp hash message timestamp
       parentHashes fileBlobs].
  rewrite while_parents.
  rewrite <- (List.app_nil_r (map file_line _)), while_files_resplit.
  reflexivity.
Qed.

Lemma well_formed_decoded c :
  well_formed c = true -> distinct_keys (fileBlobs c) ->
  well_formed (mkCommitNode (hash c) (parentHashes c) (message c) (timestamp c)
                 (std_sort (fileBlobs c))) = true
  /\ distinct_keys (std_sort (fileBlobs c)).
Proof.
  intros Hwf Hnd. split.
  - unfold well_formed, well_formed_fields in *.
    cbn [hash message timestamp parentHashes fileBlobs].
    repeat match goal with
           | H : _ && _ = true |- _ => apply andb_true_iff in H; destruct H
           end.
    repeat (apply andb_true_iff; split); try assumption.
    now apply well_formed_sorted.
  - now apply sorted_keys_NoDup, std_sort_sorted.
Qed.

Lemma tree_line_inj e1 e2 :
  space_free (fst e1) = true -> space_free (fst e2) = true ->
  tree_line e1 = tree_line e2 -> e1 = e2.
Proof.
  destruct e1 as [k1 v1], e2 as [k2 v2]. unfold tree_line, space_free.
  cbn [fst snd]. intros H1 H2 H.
  apply negb_true_iff in H1, H2.
  apply (append_inv_head "  ") in H.
  change (k1 ++ String space v1 = k2 ++ String space v2) in H.
  assert (Hk : k1 = k2).
  { rewrite <- (substr_to_app k1 (String space v1)),
            <- (substr_to_app k2 (String space v2)).
    pose proof (find_app space k1 v1 H1) as F1.
    pose proof (find_app space k2 v2 H2) as F2.
    rewrite H in F1. rewrite F1 in F2. injection F2 as ->. now rewrite H. }
  subst k2. apply append_inv_head in H. injection H as ->. reflexivity.
Qed.

Lemma map_tree_line_inj l1 : forall l2,
  forallb (fun e => space_free (fst e)) l1 = true ->
  forallb (fun e => space_free (fst e)) l2 = true ->
  map tree_line l1 = map tree_line l2 -> l1 = l2.
Proof.
  induction l1 as [|e1 l1 IH]; intros [|e2 l2] H1 H2 H; cbn [map forallb] in *;
    try reflexivity; try discriminate.
  apply andb_true_iff in H1 as [He1 H1]. apply andb_true_iff in H2 as [He2 H2].
  assert (He : tree_line e1 = tree_line e2) by congruence.
  assert (Ht : map tree_line l1 = map tree_line l2) by congruence.
  f_equal; [now apply tree_line_inj | now apply IH].
Qed.

Lemma space_free_sorted c :
  well_formed_fields c = true ->
  forallb (fun e => space_free (fst e)) (std_sort (fileBlobs c)) = true.
Proof.
  unfold well_formed_fields. intros H.
  repeat match goal with
         | H : _ && _ = true |- _ => apply andb_true_iff in H; destruct H
         end.
  eapply forallb_weaken; [|apply well_formed_sorted; eassumption].
  unfold well_formed_entry. intros e He.
  repeat match goal with
         | H : _ && _ = true |- _ => apply andb_true_iff in H; destruct H
         end.
  assumption.
Qed.

End RoundTripMore.
Import RoundTripMore.

(** Property X8. For a well-formed record, the record decoded from the stored
    form has the same stored form, and decodes from it to itself: one round
    trip reaches a fixed point. *)
Theorem stored_form_is_stable (c : CommitNode) :
  well_formed c = true -> distinct_keys (fileBlobs c) ->
  exists r, deserialize (serialize c) = Ok r
    /\ serialize r = serialize c
    /\ deserialize (serialize r) = Ok r.
Proof.
  intros Hwf Hnd. destruct (well_formed_decoded c Hwf Hnd) as [Hwf' Hnd'].
  eexists. split; [now apply deserialize_serialize|]. split.
  - apply serialize_ext; try reflexivity. cbn [fileBlobs]. now apply std_sort_idem.
  - rewrite (deserialize_serialize _ Hwf' Hnd').
    cbn [hash message timestamp parentHashes fileBlobs].
    now rewrite std_sort_idem.
Qed.

Lemma stored_form_is_stable_witness :
  let c := new_CommitNode "init" ["0a1b2c3d"]
             [("b.txt", "deadbeef"); ("a.txt", "cafebabe")] "2024-01-01T00:00:00" in
  exists r, deserialize (serialize c) = Ok r
    /\ serialize r = serialize c
    /\ deserialize (serialize r) = Ok r.
Proof.
  apply stored_form_is_stable.
  - vm_compute. reflexivity.
  - repeat constructor; simpl; intuition discriminate.
Defined.

(** Property X9. Two well-formed records with the same stored form have the
    same identifier, message, timestamp and parents, and the same entries. *)
Theorem serialize_is_injective (c1 c2 : CommitNode) :
  well_formed c1 = true -> distinct_keys (fileBlobs c1) ->
  well_formed c2 = true -> distinct_keys (fileBlobs c2) ->
  serialize c1 = serialize c2 ->
  getHash c1 = getHash c2 /\ getMessage c1 = getMessage c2
  /\ getTimestamp c1 = getTimestamp c2
  /\ getParentHashes c1 = getParentHashes c2
  /\ Permutation (getFileBlobs c1) (getFileBlobs c2).
Proof.
  intros W1 D1 W2 D2 H.
  pose proof (deserialize_serialize c1 W1 D1) as E1.
  pose proof (deserialize_serialize c2 W2 D2) as E2.
  rewrite H, E2 in E1. injection E1 as Hh Hp Hm Ht Hs.
  unfold getHash, getMessage, getTimestamp, getParentHashes, getFileBlobs.
  repeat split; try congruence.
  rewrite (std_sort_perm (fileBlobs c1)), (std_sort_perm (fileBlobs c2)).
  now rewrite Hs.
Qed.

Lemma serialize_is_injective_witness :
  let c1 := mkCommitNode "00000001" ["0a1b2c3d"]
              "init" "2024-01-01T00:00:00"
              [("b.txt", "deadbeef"); ("a.txt", "cafebabe")] in
  let c2 := mkCommitNode "00000001" ["0a1b2c3d"]
              "init" "2024-01-01T00:00:00"
              [("a.txt", "cafebabe"); ("b.txt", "deadbeef")] in
  getHash c1 = getHash c2 /\ getMessage c1 = getMessage c2
  /\ getTimestamp c1 = getTimestamp c2
  /\ getParentHashes c1 = getParentHashes c2
  /\ Permutation (getFileBlobs c1) (getFileBlobs c2).
Proof.
  cbv zeta. apply serialize_is_injective.
  - vm_compute. reflexivity.
  - repeat constructor; simpl; intuition discriminate.
  - vm_compute. reflexivity.
  - repeat constructor; simpl; intuition discriminate.
  - vm_compute. reflexivity.
Defined.

(** Property X10. Two records with well-formed fields and the same hash-input
    text have the same message, timestamp and parents, and the same entries:
    among them, two identifiers collide only where the fingerprint does. *)
Theorem hash_input_is_injective (c1 c2 : CommitNode) :
  well_formed_fields c1 = true -> distinct_keys (fileBlobs c1) ->
  well_formed_fields c2 = true -> distinct_keys (fileBlobs c2) ->
  contentToHash c1 = contentToHash c2 ->
  getMessage c1 = getMessage c2
  /\ getTimestamp c1 = getTimestamp c2
  /\ getParentHashes c1 = getParentHashes c2
  /\ Permutation (getFileBlobs c1) (getFileBlobs c2).
Proof.
  intros W1 D1 W2 D2 H.
  pose proof (deserialize_contentToHash c1 W1) as E1.
  pose proof (deserialize_contentToHash c2 W2) as E2.
  rewrite H, E2 in E1. injection E1 as Hp Hm Ht.
  assert (Hl : hash_input_lines c1 = hash_input_lines c2).
  { rewrite <- (getlines_unlines (hash_input_lines c1)),
            <- (getlines_unlines (hash_input_lines c2))
      by now apply hash_input_lines_newline_free.
    now rewrite <- !contentToHash_unlines, H. }
  unfold hash_input_lines in Hl. rewrite Hp, Hm, Ht in Hl.
  apply app_inv_head in Hl. apply app_inv_head in Hl. apply app_inv_head in Hl.
  apply map_tree_line_inj in Hl; try now apply space_free_sorted.
  unfold getMessage, getTimestamp, getParentHashes, getFileBlobs.
  repeat split; try congruence.
  rewrite (std_sort_perm (fileBlobs c1)), (std_sort_perm (fileBlobs c2)).
  now rewrite Hl.
Qed.

Lemma hash_input_is_injective_witness :
  let c1 := mkCommitNode "" ["0a1b2c3d"] "init" "2024-01-01T00:00:00"
              [("b.txt", "deadbeef"); ("a.txt", "cafebabe")] in
  let c2 := mkCommitNode "ffffffff" ["0a1b2c3d"] "init" "2024-01-01T00:00:00"
              [("a.txt", "cafebabe"); ("b.txt", "deadbeef")] in
  getMessage c1 = getMessage c2
  /\ getTimestamp c1 = getTimestamp c2
  /\ getParentHashes c1 = getParentHashes c2
  /\ Permutation (getFileBlobs c1) (getFileBlobs c2).
Proof.
  cbv zeta. apply hash_input_is_injective.
  - vm_compute. reflexivity.
  - repeat constructor; simpl; intuition discriminate.
  - vm_compute. reflexivity.
  - repeat constructor; simpl; intuition discriminate.
  - vm_compute. reflexivity.
Defined.

Module IdentifierFacts.

Lemma contentToHash_message (c : CommitNode) :
  contentToHash c
  = ("commit" ++ NL ++ "message:") ++ message c
    ++ NL ++ "timestamp:" ++ timestamp c ++ NL
    ++ unlines (map parent_line (parentHashes c) ++ ["tree:"]
                ++ map tree_line (std_sort (fileBlobs c)))%list.
Proof.
  rewrite contentToHash_unlines. unfold hash_input_lines.
  cbn [app unlines]. now rewrite !append_assoc.
Qed.

Lemma contentToHash_tree (c : CommitNode) :
  contentToHash c
  = unlines (["commit"; String.append "message:" (message c);
              String.append "timestamp:" (timestamp c)]
             ++ map parent_line (parentHashes c) ++ ["tree:"])%list
    ++ unlines (map tree_line (std_sort (fileBlobs c))).
Proof.
  rewrite contentToHash_unlines. unfold hash_input_lines.
  rewrite <- unlines_app. f_equal. now rewrite <- !List.app_assoc.
Qed.

(** Where [std::sort] puts an entry depends on its path only. *)
Lemma sort_insert_place (k : string) : forall L,
  exists L1 L2, forall v : string,
    sort_insert (k, v) L = (L1 ++ (k, v) :: L2)%list.
Proof.
  induction L as [|y L (L1 & L2 & IH)].
  - now exists [], [].
  - destruct (String.ltb k (fst y)) eqn:E.
    + exists [], (y :: L). intros v. cbn [sort_insert]. unfold comp. cbn [fst].
      now rewrite E.
    + exists (y :: L1), L2. intros v. cbn [sort_insert]. unfold comp. cbn [fst].
      rewrite E. cbn [app]. f_equal. apply IH.
Qed.

Lemma std_sort_place l1 l2 k v0 :
  distinct_keys (l1 ++ (k, v0) :: l2)%list ->
  exists L1 L2, forall v,
    std_sort (l1 ++ (k, v) :: l2)%list = (L1 ++ (k, v) :: L2)%list.
Proof.
  intros Hnd.
  destruct (sort_insert_place k (std_sort (l1 ++ l2)%list)) as (L1 & L2 & H).
  exists L1, L2. intros v.
  assert (Hk : keys (l1 ++ (k, v) :: l2)%list = keys (l1 ++ (k, v0) :: l2)%list)
    by (unfold keys; now rewrite !map_app).
  rewrite <- (std_sort_permuted ((k, v) :: l1 ++ l2)%list).
  - cbn [std_sort]. apply H.
  - eapply Permutation_NoDup; [|exact Hnd].
    rewrite <- Hk. apply keys_perm. symmetry. apply Permutation_middle.
  - apply Permutation_middle.
Qed.

(** The text that is fingerprinted, around one character of one blob
    identifier. *)
Lemma contentToHash_blob_hole msg parents now l1 l2 k q s x0 :
  distinct_keys (l1 ++ (k, String.append q (String x0 s)) :: l2)%list ->
  exists A B, forall x,
    contentToHash (mkCommitNode "" parents msg now
                     (l1 ++ (k, String.append q (String x s)) :: l2)%list)
    = A ++ String x B.
Proof.
  intros Hnd. destruct (std_sort_place _ _ _ _ Hnd) as (L1 & L2 & H).
  eexists (unlines (["commit"; String.append "message:" msg;
                     String.append "timestamp:" now]
                    ++ map parent_line parents ++ ["tree:"])%list
           ++ unlines (map tree_line L1) ++ "  " ++ k ++ " " ++ q),
          (s ++ NL ++ unlines (map tree_line L2)).
  intros x. rewrite contentToHash_tree.
  cbn [message timestamp parentHashes fileBlobs]. rewrite H.
  rewrite map_app, (unlines_app (map tree_line L1)). cbn [map unlines].
  unfold tree_line at 2. cbn [fst snd]. now rewrite !append_assoc.
Qed.

End IdentifierFacts.
Import IdentifierFacts.

(** Property X11. Neither encoder tells the path [k v1] with blob identifier
    [v2] from the path [k] with blob identifier [v1 v2]: the two one-entry
    snapshots differ, and the two commits have the same hash-input text, the
    same identifier and the same stored form. *)
Theorem space_in_path_is_ambiguous (msg : string) (parents : list string)
    (now k v1 v2 : string) :
  let c1 := new_CommitNode msg parents [(k ++ " " ++ v1, v2)] now in
  let c2 := new_CommitNode msg parents [(k, v1 ++ " " ++ v2)] now in
  getFileBlobs c1 <> getFileBlobs c2
  /\ contentToHash c1 = contentToHash c2
  /\ getHash c1 = getHash c2
  /\ serialize c1 = serialize c2.
Proof.
  cbv zeta.
  assert (Hc : contentToHash (mkCommitNode "" parents msg now [(k ++ " " ++ v1, v2)])
               = contentToHash (mkCommitNode "" parents msg now [(k, v1 ++ " " ++ v2)])).
  { rewrite !contentToHash_tree. cbn [fileBlobs std_sort sort_insert map unlines].
    unfold tree_line. cbn [fst snd]. now rewrite !append_assoc. }
  assert (Hh : getHash (new_CommitNode msg parents [(k ++ " " ++ v1, v2)] now)
               = getHash (new_CommitNode msg parents [(k, v1 ++ " " ++ v2)] now)).
  { cbn [getHash hash new_CommitNode]. unfold Commit.calculateHash. now rewrite Hc. }
  split; [|split; [exact Hc|split; [exact Hh|]]].
  - cbn [getFileBlobs fileBlobs new_CommitNode]. intros H.
    injection H as H _. apply (f_equal String.length) in H.
    rewrite length_append in H. cbn [String.length append] in H. lia.
  - rewrite !serialize_unlines. unfold stored_lines.
    unfold getHash in Hh. rewrite Hh.
    cbn [message timestamp parentHashes fileBlobs new_CommitNode std_sort
         sort_insert map].
    unfold file_line. cbn [fst snd]. now rewrite !append_assoc.
Qed.

(** Property X12. What decoding the stored form gives when no field holds a
    line feed, spaces being allowed: the identifier, the message, the
    timestamp and the parents come back; the table receives the sorted
    entries one by one, each path cut at its first space and the rest of the
    path put in front of the blob identifier. *)
Theorem decode_of_stored_form (c : CommitNode) :
  newline_free_record c = true ->
  exists r, deserialize (serialize c) = Ok r
    /\ getHash r = getHash c /\ getMessage r = getMessage c
    /\ getTimestamp r = getTimestamp c
    /\ getParentHashes r = getParentHashes c
    /\ getFileBlobs r = inserted (map resplit (std_sort (fileBlobs c))).
Proof.
  intros H. eexists. split; [now apply deserialize_serialize_any|].
  now repeat split.
Qed.

Lemma decode_of_stored_form_witness :
  let c := new_CommitNode "add docs" []
             [("my file.txt", "deadbeef"); ("a.txt", "cafebabe")]
             "2024-01-01T00:00:00" in
  exists r, deserialize (serialize c) = Ok r
    /\ getHash r = getHash c /\ getMessage r = getMessage c
    /\ getTimestamp r = getTimestamp c
    /\ getParentHashes r = getParentHashes c
    /\ getFileBlobs r = [("a.txt", "cafebabe"); ("my", "file.txt deadbeef")].
Proof. cbv zeta. apply decode_of_stored_form. vm_compute. reflexivity. Defined.

(** Property X13. The decoder does not check the [hash:] line: the stored
    form of a well-formed record with any other identifier in that line
    decodes without error to a record that carries this identifier, which is
    not the fingerprint of its content. *)
Theorem decoder_trusts_hash_line (c : CommitNode) (h : string) :
  well_formed_fields c = true -> distinct_keys (fileBlobs c) ->
  newline_free h = true ->
  h <> Commit.calculateHash c ->
  let forged := mkCommitNode h (parentHashes c) (message c) (timestamp c)
                  (fileBlobs c) in
  exists r, deserialize (serialize forged) = Ok r
    /\ getHash r = h
    /\ Commit.calculateHash r = Commit.calculateHash c
    /\ getHash r <> Commit.calculateHash r.
Proof.
  intros Hwf Hnd Hh Hne. cbv zeta. eexists. split.
  - apply deserialize_serialize; [|exact Hnd].
    unfold well_formed, well_formed_fields in *.
    cbn [hash message timestamp parentHashes fileBlobs]. now rewrite Hh, Hwf.
  - cbn [getHash hash message timestamp parentHashes fileBlobs].
    assert (E : Commit.calculateHash
                  (mkCommitNode h (parentHashes c) (message c) (timestamp c)
                     (std_sort (fileBlobs c)))
                = Commit.calculateHash c).
    { unfold Commit.calculateHash. f_equal. apply contentToHash_ext; try reflexivity.
      cbn [fileBlobs]. now apply std_sort_idem. }
    split; [reflexivity|]. split; [exact E|]. now rewrite E.
Qed.

Lemma decoder_trusts_hash_line_witness :
  let c := new_CommitNode "init" [] [("a.txt", "deadbeef")] "2024-01-01T00:00:00" in
  let forged := mkCommitNode "00000000" [] "init" "2024-01-01T00:00:00"
                  [("a.txt", "deadbeef")] in
  exists r, deserialize (serialize forged) = Ok r
    /\ getHash r = "00000000"
    /\ Commit.calculateHash r = Commit.calculateHash c
    /\ getHash r <> Commit.calculateHash r.
Proof.
  cbv zeta.
  apply (decoder_trusts_hash_line
           (new_CommitNode "init" [] [("a.txt", "deadbeef")] "2024-01-01T00:00:00")
           "00000000").
  - vm_compute. reflexivity.
  - repeat constructor; simpl; intuition discriminate.
  - reflexivity.
  - vm_compute. discriminate.
Defined.

(** Property X14. Changing one character of the message changes the
    identifier of the commit. *)
Theorem message_character_changes_identifier (p s : string) (a b : ascii)
    (parents : list string) (blobs : unordered_map) (now : string) :
  a <> b ->
  getHash (new_CommitNode (p ++ String a s) parents blobs now)
  <> getHash (new_CommitNode (p ++ String b s) parents blobs now).
Proof.
  intros Hne. cbn [getHash hash new_CommitNode]. unfold Commit.calculateHash.
  rewrite !contentToHash_message. cbn [message timestamp parentHashes fileBlobs].
  set (PRE := "commit" ++ NL ++ "message:"). set (SUF := NL ++ _).
  rewrite !(append_assoc p), <- !(append_assoc PRE p).
  change (String a s ++ SUF) with (String a (s ++ SUF)).
  change (String b s ++ SUF) with (String b (s ++ SUF)).
  now apply calculateHash_substitution.
Qed.

Lemma message_character_changes_identifier_witness :
  getHash (new_CommitNode ("fix " ++ String "a" " typo") []
             [("a.txt", "deadbeef")] "2024-01-01T00:00:00")
  <> getHash (new_CommitNode ("fix " ++ String "b" " typo") []
                [("a.txt", "deadbeef")] "2024-01-01T00:00:00").
Proof. apply message_character_changes_identifier. discriminate. Defined.

(** Property X15. Changing one character of the blob identifier of one
    path changes the identifier of the commit, wherever the entry stands in
    the table: [std::sort] places an entry by its path alone. *)
Theorem blob_character_changes_identifier (msg : string) (parents : list string)
    (now : string) (l1 l2 : list entry) (k q s : string) (a b : ascii) :
  distinct_keys (l1 ++ (k, String.append q (String a s)) :: l2)%list ->
  a <> b ->
  getHash (new_CommitNode msg parents (l1 ++ (k, String.append q (String a s)) :: l2)%list now)
  <> getHash (new_CommitNode msg parents (l1 ++ (k, String.append q (String b s)) :: l2)%list now).
Proof.
  intros Hnd Hne. cbn [getHash hash new_CommitNode]. unfold Commit.calculateHash.
  destruct (contentToHash_blob_hole msg parents now l1 l2 k q s a Hnd)
    as (A & B & H).
  rewrite !H. now apply calculateHash_substitution.
Qed.

Lemma blob_character_changes_identifier_witness :
  getHash (new_CommitNode "init" []
             ([("b.txt", "deadbeef")] ++ ("a.txt", String.append "cafe" (String "b" "abe"))
              :: [("c.txt", "00000001")])%list "2024-01-01T00:00:00")
  <> getHash (new_CommitNode "init" []
                ([("b.txt", "deadbeef")] ++ ("a.txt", String.append "cafe" (String "c" "abe"))
                 :: [("c.txt", "00000001")])%list "2024-01-01T00:00:00").
Proof.
  apply blob_character_changes_identifier.
  - repeat constructor; simpl; intuition discriminate.
  - discriminate.
Defined.

(** Property X16. A stored form cut after any of its line feeds still
    decodes without error: the decoder has no way to see that lines are
    missing. *)
Theorem truncated_stored_form_decodes (c : CommitNode) (a tail : string) :
  well_formed c = true -> distinct_keys (fileBlobs c) ->
  serialize c = a ++ NL ++ tail ->
  exists r, deserialize (a ++ NL) = Ok r.
Proof.
  intros Hwf Hnd H.
  assert (Hfull : forallb (fun l => negb (throws l)) (getlines (serialize c)) = true).
  { apply (while_getline_ok_iff _ initial_locals).
    pose proof (deserialize_serialize c Hwf Hnd) as E. unfold deserialize in E.
    destruct (while_getline _ _) as [st|e]; [now exists st|discriminate]. }
  rewrite H, getlines_app_NL, forallb_app in Hfull.
  apply andb_true_iff in Hfull as [Hpre _].
  apply (while_getline_ok_iff _ initial_locals) in Hpre as [st Hst].
  unfold deserialize. rewrite Hst. eauto.
Qed.

Lemma truncated_stored_form_decodes_witness :
  exists r, deserialize ("type:commit" ++ NL ++ "hash:45a12172" ++ NL
                         ++ "message:init" ++ NL) = Ok r.
Proof.
  apply (truncated_stored_form_decodes
           (new_CommitNode "init" [] [("a.txt", "deadbeef")] "2024-01-01T00:00:00")
           ("type:commit" ++ NL ++ "hash:45a12172" ++ NL ++ "message:init")
           ("timestamp:2024-01-01T00:00:00" ++ NL ++ "file:a.txt deadbeef" ++ NL)).
  - vm_compute. reflexivity.
  - repeat constructor; simpl; intuition discriminate.
  - vm_compute. reflexivity.
Defined.

(** Property X17. [readFromFile] returns [false] only when the path does
    not exist, is not a regular file or cannot be opened; it then leaves
    [content] empty, writes one line to [std::cerr], and that content decodes
    without error to the default-constructed commit. *)
Theorem failed_read_decodes_to_default (f : FileUtils.file) (filename : string) :
  FileUtils.returned (FileUtils.readFromFile f filename) = false ->
  (FileUtils.exists_ f && FileUtils.is_regular_file f && FileUtils.is_open f = false)
  /\ FileUtils.content (FileUtils.readFromFile f filename) = ""
  /\ List.length (FileUtils.cerr (FileUtils.readFromFile f filename)) = 1
  /\ deserialize (FileUtils.content (FileUtils.readFromFile f filename))
     = Ok default_CommitNode.
Proof.
  unfold FileUtils.readFromFile.
  destruct (FileUtils.exists_ f); cbn [negb andb]; [|now intros _].
  destruct (FileUtils.is_regular_file f); cbn [negb andb]; [|now intros _].
  destruct (FileUtils.is_open f); cbn [negb andb]; [|now intros _].
  destruct ((String.length (FileUtils.rdbuf f) =? 0)%nat
            && (0 <? FileUtils.file_size f)%nat); discriminate.
Qed.

Lemma failed_read_decodes_to_default_witness :
  let f := FileUtils.mkFile true false false "" 0 in
  (FileUtils.exists_ f && FileUtils.is_regular_file f && FileUtils.is_open f = false)
  /\ FileUtils.content (FileUtils.readFromFile f "objects") = ""
  /\ List.length (FileUtils.cerr (FileUtils.readFromFile f "objects")) = 1
  /\ deserialize (FileUtils.content (FileUtils.readFromFile f "objects"))
     = Ok default_CommitNode.
Proof. cbv zeta. apply failed_read_decodes_to_default. reflexivity. Defined.

(** Property X18. A stored form whose line feeds have been turned into
    carriage return and line feed is rejected at its first line, for every
    record: the value of the type is compared with [commit] exactly. *)
Theorem crlf_stored_form_is_rejected (c : CommitNode) :
  deserialize (crlf (serialize c))
  = Throw (bad_type (String.append "commit" (String carriage_return ""))).
Proof.
  pose (rest := unlines (tl (stored_lines c))).
  assert (E : crlf (serialize c)
              = ("type:commit" ++ String carriage_return "") ++ NL ++ crlf rest)
    by (rewrite serialize_unlines; reflexivity).
  unfold deserialize. rewrite E, getlines_cons by reflexivity.
  reflexivity.
Qed.

(** Property X19. [writeToFile] returns [false] exactly when it has written
    to [std::cerr] (two lines when the parent directory could not be
    created), and [true] exactly when the parent directory was ensured, the
    stream opened and the write did not fail. It does not return, and has
    written nothing, when [fs::exists] throws on a non-empty parent path. *)
Theorem writeToFile_reports_every_failure (e : FileWrite.env)
    (filename content : string) :
  let o := FileWrite.writeToFile e filename content in
  let ensured := FileWrite.ensureParentDirectoryExists e in
  (FileWrite.ended o = FileWrite.Returns false <-> FileWrite.cerr o <> [])
  /\ (FileWrite.ended o = FileWrite.Returns true <->
      FileWrite.ended ensured = FileWrite.Returns true
      /\ FileWrite.is_open e = true /\ FileWrite.fail e = false)
  /\ (FileWrite.ended o = FileWrite.Throws_filesystem_error <->
      FileWrite.parent_empty e = false /\ FileWrite.parent_exists e = None)
  /\ (FileWrite.ended ensured = FileWrite.Returns false ->
      List.length (FileWrite.cerr o) = 2).
Proof.
  cbv zeta. unfold FileWrite.writeToFile, FileWrite.ensureParentDirectoryExists.
  destruct e as [pe px cd ps em op fl]. cbn [FileWrite.parent_empty
    FileWrite.parent_exists FileWrite.create_directories FileWrite.parent_shown
    FileWrite.ec_message FileWrite.is_open FileWrite.fail].
  destruct pe, px as [[|]|], cd, op, fl; cbn; repeat split; intros;
    try discriminate; try reflexivity; try congruence;
    repeat match goal with
           | H : _ /\ _ |- _ => destruct H
           end; try discriminate; try congruence.
Qed.
